(** * Abstracted account: the authorization core of the two contract variants

    Shallow embedding of the two TEALScript contracts of the repository:
    - [ARC58]: the plugin contract with caller-scoped, expiring grants and
      named plugins (methods [arc58_*]);
    - [Legacy]: [contracts/abstracted_account.algo.ts], the earlier contract
      with plugin and factory sets.

    A contract method is a computation in a state-and-error monad over the
    contract's storage and the ledger's rekey table.  An assertion that does
    not hold aborts the method; the label of the abort names the assertion
    site with the error vocabulary of the specification.  Balances, fees,
    box references and minimum-balance accounting are not part of the model. *)

From stdpp Require Import base decidable option list gmap strings.
From Stdlib Require Import NArith.

Local Open Scope string_scope.
Local Open Scope N_scope.

(** ** Values of the virtual machine *)

(** A 32-byte address read as a big-endian number; [zeroAddress] is the
    all-zero key. *)
Definition Address : Type := N.
Definition zeroAddress : Address := 0.

(** Application ids and timestamps are [uint64] values; the contracts only
    compare them, so no arithmetic wrap-around arises. *)
Definition uint64 : Type := N.
Definition Application : Type := N.

(** Byte strings (box names, application arguments, notes). *)
Definition bytes : Type := string.

Inductive TxnType : Type := pay | keyreg | acfg | axfer | afrz | appl.

#[global] Instance TxnType_eq_dec : EqDecision TxnType.
Proof. solve_decision. Defined.

(** The transaction fields the contracts read or set. *)
Record Txn : Type := mkTxn {
  sender : Address;
  receiver : Address;
  rekeyTo : Address;
  note : bytes;
  typeEnum : TxnType;
  applicationID : Application;
  applicationArgs : list bytes
}.

(** What a method sees of its execution context: [this.app], [this.txn],
    [this.txnGroup] and [globals.latestTimestamp]. *)
Record Ctx : Type := mkCtx {
  app : Application;
  txn : Txn;
  txnGroup : list Txn;
  latestTimestamp : uint64
}.

(** The ledger's rekey table: the [authAddr] of every account, where an
    account that was never rekeyed has the zero address. *)
Abbreviation Ledger := (gmap Address Address).

Definition account_authAddr (l : Ledger) (a : Address) : Address :=
  default zeroAddress (l !! a).

(** What the contracts take from the platform: the ARC4 selector of a method
    signature, the account of an application, the creator of an application,
    and the submission of an inner payment by the application account
    [caller] (the control-transfer primitive), which the ledger may reject. *)
Class Platform : Type := {
  method : string -> bytes;
  app_address : Application -> Address;
  app_creator : Application -> Address;
  submit_payment : Address -> Txn -> Ledger -> option Ledger
}.

(** ** Outcomes and the execution monad *)

Inductive Error : Type :=
  | Unauthorized
  | NotAuthorized
  | InvalidAdmin
  | AliasExists
  | NotFound
  | InvariantViolation
  | TransferRejected.

Inductive Outcome (A : Type) : Type :=
  | Ok (a : A)
  | Fail (e : Error).
Arguments Ok {A} a.
Arguments Fail {A} e.

(** The contract's storage together with the rekey table. *)
Record World (S : Type) : Type := mkWorld {
  storage : S;
  ledger : Ledger
}.
Arguments mkWorld {S} _ _.
Arguments storage {S} _.
Arguments ledger {S} _.

Definition Exec (S A : Type) : Type := World S -> Outcome (A * World S).

Definition ret {S A} (a : A) : Exec S A := fun w => Ok (a, w).

Definition bind {S A B} (m : Exec S A) (k : A -> Exec S B) : Exec S B :=
  fun w => match m w with
           | Ok (a, w') => k a w'
           | Fail e => Fail e
           end.

Definition abort {S A} (e : Error) : Exec S A := fun _ => Fail e.

Notation "x <- m ;; k" := (bind m (fun x => k))
  (at level 100, m at next level, right associativity).
Notation "m ;; k" := (bind m (fun _ => k))
  (at level 100, right associativity).

Definition get_storage {S} : Exec S S := fun w => Ok (storage w, w).

Definition put_storage {S} (s : S) : Exec S unit :=
  fun w => Ok (tt, mkWorld s (ledger w)).

Definition get_ledger {S} : Exec S Ledger := fun w => Ok (ledger w, w).

(** [assert(b)]: the method aborts when [b] is false. *)
Definition assert {S} (b : bool) (e : Error) : Exec S unit :=
  if b then ret tt else abort e.

(** [verifyTxn(t, {...})]: every listed field condition must hold. *)
Definition verifyTxn {S} (t : Txn) (fields : bool) (e : Error) : Exec S unit :=
  assert fields e.

(** [verifyAppCallTxn(t, {...})]: [t] is an application call and every
    listed field condition holds. *)
Definition verifyAppCallTxn {S} (t : Txn) (fields : bool) (e : Error)
  : Exec S unit :=
  assert (bool_decide (typeEnum t = appl) && fields) e.

(** Reading [.value] of a box or key that does not exist aborts. *)
Definition read_value {S A} (o : option A) (e : Error) : Exec S A :=
  match o with
  | Some a => ret a
  | None => abort e
  end.

(** [sendPayment({...})]: the inner payment is submitted on behalf of the
    application account; a rejected inner transaction aborts the method. *)
Definition inner_payment (sender receiver rekeyTo : Address) (note : bytes)
  : Txn :=
  {| sender := sender; receiver := receiver; rekeyTo := rekeyTo;
     note := note; typeEnum := pay; applicationID := 0;
     applicationArgs := [] |}.

Definition sendPayment {S} `{Platform} (c : Ctx)
    (sender receiver rekeyTo : Address) (note : bytes) : Exec S unit :=
  fun w =>
    match submit_payment (app_address (app c))
                         (inner_payment sender receiver rekeyTo note)
                         (ledger w) with
    | Some l' => Ok (tt, mkWorld (storage w) l')
    | None => Fail TransferRejected
    end.

(** Atomic groups: a method that aborts leaves the world as it was. *)
Definition commit {S} (m : Exec S unit) (w : World S) : World S :=
  match m w with
  | Ok (_, w') => w'
  | Fail _ => w
  end.

Definition succeeds {S A} (m : Exec S A) (w : World S) : Prop :=
  exists r, m w = Ok r.

Definition fails_with {S A} (m : Exec S A) (w : World S) (e : Error) : Prop :=
  m w = Fail e.

(** ** The plugin contract (methods [arc58_*]) *)

Module ARC58.

(** [type PluginsKey = { application; allowedCaller }] *)
Record PluginsKey : Type := mkKey {
  application : Application;
  allowedCaller : Address
}.

#[global] Instance PluginsKey_eq_dec : EqDecision PluginsKey.
Proof. solve_decision. Defined.

#[global] Instance PluginsKey_countable : Countable PluginsKey :=
  inj_countable' (fun k => (application k, allowedCaller k))
                 (fun p => mkKey p.1 p.2)
                 (fun k => match k with mkKey _ _ => eq_refl end).

(** The two global keys, set by [createApplication], and the two box maps. *)
Record State : Type := mkState {
  admin : Address;
  controlledAddress : Address;
  plugins : gmap PluginsKey uint64;
  namedPlugins : gmap bytes PluginsKey
}.

Definition set_admin (a : Address) (s : State) : State :=
  {| admin := a; controlledAddress := controlledAddress s;
     plugins := plugins s; namedPlugins := namedPlugins s |}.

Definition set_plugins (m : gmap PluginsKey uint64) (s : State) : State :=
  {| admin := admin s; controlledAddress := controlledAddress s;
     plugins := m; namedPlugins := namedPlugins s |}.

Definition set_namedPlugins (m : gmap bytes PluginsKey) (s : State) : State :=
  {| admin := admin s; controlledAddress := controlledAddress s;
     plugins := plugins s; namedPlugins := m |}.

Section Contract.
Context `{Platform}.

Abbreviation M := (Exec State).

(** [getAuthAddr]: what the [authAddr] of the controlled address is while
    this application controls it. *)
Definition getAuthAddr (c : Ctx) (s : State) : Address :=
  if bool_decide (controlledAddress s = app_address (app c))
  then zeroAddress
  else app_address (app c).

(** [verifyRekeyToAbstractedAccount]: the last transaction of the group
    either rekeys the controlled address back, or is a call of
    [arc58_verifyAuthAddr] on this application. *)
Definition verifyRekeyToAbstractedAccount (c : Ctx) : M unit :=
  s <- get_storage ;;
  lastTxn <- read_value (last (txnGroup c)) InvariantViolation ;;
  if bool_decide (sender lastTxn <> controlledAddress s)
     || bool_decide (rekeyTo lastTxn <> getAuthAddr c s)
  then
    verifyAppCallTxn lastTxn
      (bool_decide (applicationID lastTxn = app c)
       && bool_decide (applicationArgs lastTxn !! 0%nat
                       = Some (method "arc58_verifyAuthAddr()void")))
      InvariantViolation
  else ret tt.

(** [createApplication(controlledAddress, admin)] yields the first storage. *)
Definition createApplication (c : Ctx) (controlledAddress admin : Address)
  : Outcome State :=
  if negb (bool_decide (typeEnum (txn c) = appl)
           && bool_decide (sender (txn c) ∈ [controlledAddress; admin]))
  then Fail Unauthorized
  else if negb (bool_decide (admin <> controlledAddress))
  then Fail InvalidAdmin
  else Ok {| admin := admin;
             controlledAddress :=
               if bool_decide (controlledAddress = zeroAddress)
               then app_address (app c)
               else controlledAddress;
             plugins := ∅;
             namedPlugins := ∅ |}.

Definition arc58_verifyAuthAddr (c : Ctx) : M unit :=
  s <- get_storage ;;
  l <- get_ledger ;;
  assert (bool_decide (account_authAddr l (controlledAddress s)
                       = getAuthAddr c s))
         InvariantViolation.

Definition arc58_rekeyTo (c : Ctx) (addr : Address) (flash : bool) : M unit :=
  s <- get_storage ;;
  verifyAppCallTxn (txn c) (bool_decide (sender (txn c) = admin s))
                   Unauthorized ;;
  sendPayment c (controlledAddress s) addr addr
              "rekeying abstracted account" ;;
  if flash then verifyRekeyToAbstractedAccount c else ret tt.

Definition arc58_rekeyToPlugin (c : Ctx) (plugin : Application) : M unit :=
  s <- get_storage ;;
  let globalKey := {| application := plugin; allowedCaller := zeroAddress |} in
  (if match plugins s !! globalKey with
      | None => true
      | Some value => value <? latestTimestamp c
      end
   then
     let key := {| application := plugin; allowedCaller := sender (txn c) |} in
     assert match plugins s !! key with
            | None => false
            | Some value => latestTimestamp c <? value
            end
            NotAuthorized
   else ret tt) ;;
  sendPayment c (controlledAddress s) (controlledAddress s)
              (app_address plugin) "rekeying to plugin app" ;;
  verifyRekeyToAbstractedAccount c.

Definition arc58_rekeyToNamedPlugin (c : Ctx) (name : bytes) : M unit :=
  s <- get_storage ;;
  key <- read_value (namedPlugins s !! name) NotFound ;;
  arc58_rekeyToPlugin c (application key).

Definition arc58_changeAdmin (c : Ctx) (newAdmin : Address) : M unit :=
  s <- get_storage ;;
  verifyTxn (txn c) (bool_decide (sender (txn c) = admin s)) Unauthorized ;;
  assert (bool_decide (newAdmin <> controlledAddress s)) InvalidAdmin ;;
  put_storage (set_admin newAdmin s).

Definition arc58_addPlugin (c : Ctx) (app : Application)
    (allowedCaller : Address) (end_ : uint64) : M unit :=
  s <- get_storage ;;
  verifyTxn (txn c) (bool_decide (sender (txn c) = admin s)) Unauthorized ;;
  let key := {| application := app; allowedCaller := allowedCaller |} in
  put_storage (set_plugins (<[key := end_]> (plugins s)) s).

Definition arc58_removePlugin (c : Ctx) (app : Application)
    (allowedCaller : Address) : M unit :=
  s <- get_storage ;;
  verifyTxn (txn c) (bool_decide (sender (txn c) = admin s)) Unauthorized ;;
  let key := {| application := app; allowedCaller := allowedCaller |} in
  put_storage (set_plugins (delete key (plugins s)) s).

Definition arc58_addNamedPlugin (c : Ctx) (name : bytes) (app : Application)
    (allowedCaller : Address) (end_ : uint64) : M unit :=
  s <- get_storage ;;
  verifyTxn (txn c) (bool_decide (sender (txn c) = admin s)) Unauthorized ;;
  assert (negb (bool_decide (is_Some (namedPlugins s !! name)))) AliasExists ;;
  let key := {| application := app; allowedCaller := allowedCaller |} in
  put_storage (set_namedPlugins (<[name := key]> (namedPlugins s)) s) ;;
  s <- get_storage ;;
  put_storage (set_plugins (<[key := end_]> (plugins s)) s).

(** [const app = this.namedPlugins(name).value] binds [app] to the box, not
    to a copy of its value: the box is read where [app] is used, in the last
    statement, after the box of the name was deleted. *)
Definition arc58_removeNamedPlugin (c : Ctx) (name : bytes) : M unit :=
  s <- get_storage ;;
  verifyTxn (txn c) (bool_decide (sender (txn c) = admin s)) Unauthorized ;;
  put_storage (set_namedPlugins (delete name (namedPlugins s)) s) ;;
  s <- get_storage ;;
  app <- read_value (namedPlugins s !! name) NotFound ;;
  put_storage (set_plugins (delete app (plugins s)) s).

(** *** Vocabulary of the properties *)

(** The custodian the owning program expects for the managed account: the
    zero address if the managed account is the program's own account, and the
    program's account otherwise. *)
Definition expected_custodian (c : Ctx) (s : State) : Address :=
  if bool_decide (controlledAddress s = app_address (app c)) then zeroAddress
  else app_address (app c).

(** The final operation hands the managed account back. *)
Definition restores_control (c : Ctx) (s : State) (t : Txn) : Prop :=
  sender t = controlledAddress s /\ rekeyTo t = expected_custodian c s.

(** The final operation is a call of the verify-control method of the owning
    program. *)
Definition reasserts_control (c : Ctx) (t : Txn) : Prop :=
  typeEnum t = appl /\ applicationID t = app c /\
  applicationArgs t !! 0%nat = Some (method "arc58_verifyAuthAddr()void").

Definition group_closes (c : Ctx) (s : State) : Prop :=
  exists t, last (txnGroup c) = Some t /\
            (restores_control c s t \/ reasserts_control c t).

#[global] Instance group_closes_dec c s : Decision (group_closes c s).
Proof.
  unfold group_closes, restores_control, reasserts_control.
  destruct (last (txnGroup c)) as [t|].
  - destruct (decide ((sender t = controlledAddress s
                       /\ rekeyTo t = expected_custodian c s)
                      \/ (typeEnum t = appl /\ applicationID t = app c /\
                          applicationArgs t !! 0%nat
                          = Some (method "arc58_verifyAuthAddr()void"))))
      as [Hd|Hd].
    + left. eauto.
    + right. intros (t' & [= <-] & Ht). tauto.
  - right. intros (t' & [=] & _).
Defined.

(** The inner payments of [arc58_rekeyToPlugin] and [arc58_rekeyTo]. *)
Definition plugin_payment (s : State) (plugin : Application) : Txn :=
  inner_payment (controlledAddress s) (controlledAddress s)
                (app_address plugin) "rekeying to plugin app".

Definition rekey_payment (s : State) (addr : Address) : Txn :=
  inner_payment (controlledAddress s) addr addr "rekeying abstracted account".

(** The grant of [plugin] to every caller, and to the caller [a]. *)
Definition wildcard_grant (s : State) (plugin : Application) : option uint64 :=
  plugins s !! {| application := plugin; allowedCaller := zeroAddress |}.

Definition scoped_grant (s : State) (plugin : Application) (a : Address)
  : option uint64 :=
  plugins s !! {| application := plugin; allowedCaller := a |}.

(** The authorization the method computes before the handoff. *)
Definition authorized (c : Ctx) (s : State) (plugin : Application) : Prop :=
  (exists e, wildcard_grant s plugin = Some e /\ latestTimestamp c <= e)
  \/ (exists e, scoped_grant s plugin (sender (txn c)) = Some e
                /\ latestTimestamp c < e).

#[global] Instance authorized_dec c s plugin : Decision (authorized c s plugin).
Proof.
  unfold authorized.
  destruct (wildcard_grant s plugin) as [eg|];
    destruct (scoped_grant s plugin (sender (txn c))) as [es|].
  all: try destruct (decide (latestTimestamp c <= eg)).
  all: try destruct (decide (latestTimestamp c < es)).
  all: first [ left; left; by eauto
             | left; right; by eauto
             | right; intros [(e & ? & ?) | (e & ? & ?)]; simplify_eq; lia ].
Defined.

(** The handoff and the verification that follow a granted authorization. *)
Definition handoff (c : Ctx) (plugin : Application) (w : World State)
  : Outcome (unit * World State) :=
  match submit_payment (app_address (app c))
          (plugin_payment (storage w) plugin) (ledger w) with
  | Some l' => verifyRekeyToAbstractedAccount c (mkWorld (storage w) l')
  | None => Fail TransferRejected
  end.

(** *** The public methods as calls *)

(** The methods the contract exposes once it is created. *)
Inductive Call : Type :=
  | VerifyAuthAddr
  | RekeyTo (addr : Address) (flash : bool)
  | RekeyToPlugin (plugin : Application)
  | RekeyToNamedPlugin (name : bytes)
  | ChangeAdmin (newAdmin : Address)
  | AddPlugin (app : Application) (allowedCaller : Address) (end_ : uint64)
  | RemovePlugin (app : Application) (allowedCaller : Address)
  | AddNamedPlugin (name : bytes) (app : Application)
                   (allowedCaller : Address) (end_ : uint64)
  | RemoveNamedPlugin (name : bytes).

Definition dispatch (c : Ctx) (call : Call) : M unit :=
  match call with
  | VerifyAuthAddr => arc58_verifyAuthAddr c
  | RekeyTo addr flash => arc58_rekeyTo c addr flash
  | RekeyToPlugin plugin => arc58_rekeyToPlugin c plugin
  | RekeyToNamedPlugin name => arc58_rekeyToNamedPlugin c name
  | ChangeAdmin newAdmin => arc58_changeAdmin c newAdmin
  | AddPlugin app allowedCaller end_ => arc58_addPlugin c app allowedCaller end_
  | RemovePlugin app allowedCaller => arc58_removePlugin c app allowedCaller
  | AddNamedPlugin name app allowedCaller end_ =>
      arc58_addNamedPlugin c name app allowedCaller end_
  | RemoveNamedPlugin name => arc58_removeNamedPlugin c name
  end.

(** The methods that start by verifying that the sender is the admin. *)
Definition admin_only (call : Call) : bool :=
  match call with
  | VerifyAuthAddr | RekeyToPlugin _ | RekeyToNamedPlugin _ => false
  | _ => true
  end.

(** The methods that submit an inner payment. *)
Definition rekeys (call : Call) : bool :=
  match call with
  | RekeyTo _ _ | RekeyToPlugin _ | RekeyToNamedPlugin _ => true
  | _ => false
  end.

(** The methods that write a global key or a box. *)
Definition writes_storage (call : Call) : bool :=
  match call with
  | ChangeAdmin _ | AddPlugin _ _ _ | RemovePlugin _ _
  | AddNamedPlugin _ _ _ _ | RemoveNamedPlugin _ => true
  | _ => false
  end.

(** A history of calls, each in a group of its own: a call that aborts
    leaves no trace. *)
Fixpoint run (calls : list (Ctx * Call)) (w : World State) : World State :=
  match calls with
  | [] => w
  | (c, call) :: rest => run rest (commit (dispatch c call) w)
  end.

End Contract.
End ARC58.

(** ** The earlier contract ([contracts/abstracted_account.algo.ts]) *)

Module Legacy.

(** The three declared global keys and the boxes.  The values of the boxes
    are empty, so that only the set of existing boxes matters.  The two box
    maps [plugins] and [factories] are declared with the same key type and
    without a prefix: a box of either map is named by the application id
    alone, so the two maps are two views of one set of boxes. *)
Record State : Type := mkState {
  admin : Address;
  address : Address;
  authAddr : Address;
  boxes : gset Application
}.

Definition plugins (s : State) : gset Application := boxes s.

Definition factories (s : State) : gset Application := boxes s.

Definition set_admin (a : Address) (s : State) : State :=
  {| admin := a; address := address s; authAddr := authAddr s;
     boxes := boxes s |}.

Definition set_boxes (m : gset Application) (s : State) : State :=
  {| admin := admin s; address := address s; authAddr := authAddr s;
     boxes := m |}.

Section Contract.
Context `{Platform}.

Abbreviation M := (Exec State).

Definition verifyRekeyToAbstractedAccount (c : Ctx) : M unit :=
  s <- get_storage ;;
  lastTxn <- read_value (last (txnGroup c)) InvariantViolation ;;
  if bool_decide (sender lastTxn <> address s)
     || bool_decide (rekeyTo lastTxn <> authAddr s)
  then
    verifyAppCallTxn lastTxn (bool_decide (applicationID lastTxn = app c))
                     InvariantViolation ;;
    assert (bool_decide (applicationArgs lastTxn !! 0%nat
                         = Some (method "verifyAppAuthAddr()void")))
           InvariantViolation
  else ret tt.

(** The final operation of the group hands the managed account back, or is
    a call of [verifyAppAuthAddr] on this application. *)
Definition group_closes (c : Ctx) (s : State) : Prop :=
  exists t, last (txnGroup c) = Some t /\
            ((sender t = address s /\ rekeyTo t = authAddr s)
             \/ (typeEnum t = appl /\ applicationID t = app c /\
                 applicationArgs t !! 0%nat
                 = Some (method "verifyAppAuthAddr()void"))).

Definition createApplication (c : Ctx) (address admin : Address)
  : Outcome State :=
  if negb (bool_decide (typeEnum (txn c) = appl)
           && bool_decide (sender (txn c) ∈ [address; admin]))
  then Fail Unauthorized
  else if negb (bool_decide (admin <> address))
  then Fail InvalidAdmin
  else
    let address' :=
      if bool_decide (address = zeroAddress) then app_address (app c)
      else address in
    Ok {| admin := admin;
          address := address';
          authAddr :=
            if bool_decide (address' = app_address (app c)) then zeroAddress
            else app_address (app c);
          boxes := ∅ |}.

Definition verifyAppAuthAddr (c : Ctx) : M unit :=
  s <- get_storage ;;
  l <- get_ledger ;;
  assert (bool_decide (account_authAddr l (address s) = authAddr s))
         InvariantViolation.

Definition rekeyTo (c : Ctx) (addr : Address) (flash : bool) : M unit :=
  s <- get_storage ;;
  verifyAppCallTxn (txn c) (bool_decide (sender (txn c) = admin s))
                   Unauthorized ;;
  sendPayment c (address s) addr addr "rekeying abstracted account" ;;
  if flash then verifyRekeyToAbstractedAccount c else ret tt.

Definition rekeyToPlugin (c : Ctx) (plugin : Application) : M unit :=
  s <- get_storage ;;
  assert (bool_decide (plugin ∈ plugins s)
          || bool_decide (plugin ∈ factories s)) NotAuthorized ;;
  sendPayment c (address s) (address s) (app_address plugin)
              "rekeying to plugin app" ;;
  verifyRekeyToAbstractedAccount c.

Definition changeAdmin (c : Ctx) (newAdmin : Address) : M unit :=
  s <- get_storage ;;
  verifyTxn (txn c) (bool_decide (sender (txn c) = admin s)) Unauthorized ;;
  put_storage (set_admin newAdmin s).

Definition addPlugin (c : Ctx) (app : Application) : M unit :=
  s <- get_storage ;;
  assert (bool_decide (sender (txn c) = admin s)) Unauthorized ;;
  put_storage (set_boxes ({[app]} ∪ plugins s) s).

Definition removePlugin (c : Ctx) (app : Application) : M unit :=
  s <- get_storage ;;
  assert (bool_decide (sender (txn c) = admin s)) Unauthorized ;;
  put_storage (set_boxes (plugins s ∖ {[app]}) s).

Definition addFactoryPlugin (c : Ctx) (factory app : Application) : M unit :=
  s <- get_storage ;;
  assert (bool_decide (factory ∈ factories s)
          && bool_decide (app_creator app = app_address factory)
          && bool_decide (sender (txn c) = app_address factory))
         NotAuthorized ;;
  put_storage (set_boxes ({[app]} ∪ plugins s) s).

(** [addFactory] and [removeFactory] compare the sender with
    [this.eoa.value].  The contract declares no property [eoa]: the value of
    that expression is a parameter here, [None] standing for an expression
    without a value, with which no sender compares equal. *)
Variable eoa : option Address.

Definition addFactory (c : Ctx) (app : Application) : M unit :=
  s <- get_storage ;;
  assert (bool_decide (Some (sender (txn c)) = eoa)) Unauthorized ;;
  put_storage (set_boxes ({[app]} ∪ factories s) s).

Definition removeFactory (c : Ctx) (app : Application) : M unit :=
  s <- get_storage ;;
  assert (bool_decide (Some (sender (txn c)) = eoa)) Unauthorized ;;
  put_storage (set_boxes (factories s ∖ {[app]}) s).

(** *** The public methods as calls *)

Inductive Call : Type :=
  | VerifyAppAuthAddr
  | RekeyTo (addr : Address) (flash : bool)
  | RekeyToPlugin (plugin : Application)
  | ChangeAdmin (newAdmin : Address)
  | AddPlugin (app : Application)
  | RemovePlugin (app : Application)
  | AddFactory (app : Application)
  | RemoveFactory (app : Application)
  | AddFactoryPlugin (factory app : Application).

Definition dispatch (c : Ctx) (call : Call) : M unit :=
  match call with
  | VerifyAppAuthAddr => verifyAppAuthAddr c
  | RekeyTo addr flash => rekeyTo c addr flash
  | RekeyToPlugin plugin => rekeyToPlugin c plugin
  | ChangeAdmin newAdmin => changeAdmin c newAdmin
  | AddPlugin app => addPlugin c app
  | RemovePlugin app => removePlugin c app
  | AddFactory app => addFactory c app
  | RemoveFactory app => removeFactory c app
  | AddFactoryPlugin factory app => addFactoryPlugin c factory app
  end.

Fixpoint run (calls : list (Ctx * Call)) (w : World State) : World State :=
  match calls with
  | [] => w
  | (c, call) :: rest => run rest (commit (dispatch c call) w)
  end.

End Contract.
End Legacy.

(** ** A reference platform *)

Module Reference.

(** Modelled from the spec: the holder of control over an account, as the
    data model describes the custodian: the account itself while its rekey
    entry is the zero address, and the recorded address otherwise. *)
Definition control_holder (l : Ledger) (a : Address) : Address :=
  if bool_decide (account_authAddr l a = zeroAddress) then a
  else account_authAddr l a.

(** Modelled from the spec: the control-transfer primitive of the external
    interfaces, which reassigns the control-holder of the source to the
    target and fails if the caller is not the current control-holder of the
    source. *)
Definition transfer_control (caller : Address) (t : Txn) (l : Ledger)
  : option Ledger :=
  if bool_decide (control_holder l (sender t) = caller)
  then Some (<[sender t := rekeyTo t]> l)
  else None.

(** Selectors and application accounts are hashes on the chain; here an
    injective stand-in for each. *)
#[export] Instance platform : Platform := {|
  method := fun sig => sig;
  app_address := fun id => 1000 + id;
  app_creator := fun _ => zeroAddress;
  submit_payment := transfer_control
|}.

Definition call (from : Address) (to : Application) (args : list bytes) : Txn :=
  {| sender := from; receiver := zeroAddress; rekeyTo := zeroAddress;
     note := ""; typeEnum := appl; applicationID := to;
     applicationArgs := args |}.

Definition payment (from to rekey : Address) : Txn :=
  {| sender := from; receiver := to; rekeyTo := rekey;
     note := ""; typeEnum := pay; applicationID := 0;
     applicationArgs := [] |}.

End Reference.

(** ** A small deployment on the reference platform *)

Module Scenario.
Import Reference.

Definition this_app : Application := 3.
Definition owner : Address := 1.
Definition account : Address := 2.
Definition caller : Address := 5.
Definition outsider : Address := 9.
Definition delegate : Application := 7.

(** The payment that closes a group by rekeying the managed account back to
    the application account. *)
Definition rekey_back : Txn :=
  payment account account (app_address this_app).

(** A call of this application by [from] at time [now], in a group whose
    remaining transactions are [rest]. *)
Definition ctx (from : Address) (now : uint64) (rest : list Txn) : Ctx :=
  {| app := this_app;
     txn := call from this_app [];
     txnGroup := call from this_app [] :: rest;
     latestTimestamp := now |}.

(** The managed account is rekeyed to the application account. *)
Definition ledger0 : Ledger := {[ account := app_address this_app ]}.

Definition arc58_storage (grants : gmap ARC58.PluginsKey uint64)
    (names : gmap bytes ARC58.PluginsKey) : ARC58.State :=
  {| ARC58.admin := owner; ARC58.controlledAddress := account;
     ARC58.plugins := grants; ARC58.namedPlugins := names |}.

Definition legacy_storage : Legacy.State :=
  {| Legacy.admin := owner; Legacy.address := account;
     Legacy.authAddr := app_address this_app; Legacy.boxes := ∅ |}.

Definition wildcard_key : ARC58.PluginsKey :=
  {| ARC58.application := delegate; ARC58.allowedCaller := zeroAddress |}.

Definition scoped_key : ARC58.PluginsKey :=
  {| ARC58.application := delegate; ARC58.allowedCaller := caller |}.

End Scenario.

(** ** Further deployments *)

Module ScenarioExtra.
Import Reference Scenario.

Definition factory : Application := 11.

(** A platform on which the application [delegate] was created by the
    account of the application [factory]. *)
Definition factory_platform : Platform := {|
  method := fun sig => sig;
  app_address := fun id => 1000 + id;
  app_creator := fun id =>
    if bool_decide (id = delegate) then 1000 + factory else zeroAddress;
  submit_payment := transfer_control
|}.

(** The storage whose boxes are those of the given plugins and factories. *)
Definition legacy_storage_with (plugins factories : gset Application)
  : Legacy.State :=
  {| Legacy.admin := owner; Legacy.address := account;
     Legacy.authAddr := app_address this_app;
     Legacy.boxes := plugins ∪ factories |}.

(** The admin hands over to [outsider]; the former admin then tries to add
    a grant, and the new admin tries to make the controlled address the
    admin. *)
Definition arc58_calls : list (Ctx * ARC58.Call) :=
  [ (ctx owner 10 [], ARC58.ChangeAdmin outsider);
    (ctx owner 20 [], ARC58.AddPlugin delegate caller 100);
    (ctx outsider 30 [], ARC58.ChangeAdmin account) ].

(** The admin tries to add a factory and adds a plugin, the account of an
    application tries to add a plugin of its own, and the admin makes the
    controlled address the admin. *)
Definition legacy_calls : list (Ctx * Legacy.Call) :=
  [ (ctx owner 10 [], Legacy.AddFactory factory);
    (ctx owner 20 [], Legacy.AddPlugin delegate);
    (ctx (app_address factory) 30 [], Legacy.AddFactoryPlugin factory 12);
    (ctx owner 40 [], Legacy.ChangeAdmin account) ].

End ScenarioExtra.

(** ** Reasoning about methods *)

Ltac exec_unfold :=
  unfold succeeds, fails_with, commit, bind, ret, abort, assert, verifyTxn,
    verifyAppCallTxn, read_value, get_storage, put_storage, get_ledger,
    sendPayment in *.

(** Case analysis on the next decided proposition of the goal. *)
Ltac case_bd :=
  match goal with
  | |- context [@bool_decide ?P ?d] =>
      let E := fresh "E" in
      destruct (@bool_decide P d) eqn:E;
      [apply bool_decide_eq_true in E | apply bool_decide_eq_false in E]
  end.

(** On the small deployment, a group whose last transaction is the payment
    that rekeys back closes. *)
Ltac closes_by_rekey :=
  exists Scenario.rekey_back; split; [reflexivity | left; split; reflexivity].

Module ARC58Facts.
Import ARC58.

Section Verifier.
Context `{Platform}.

(** The verifier reads the group and the storage only: it returns the world
    it was given, or aborts. *)
Lemma verify_accepts c w :
  group_closes c (storage w) ->
  verifyRekeyToAbstractedAccount c w = Ok (tt, w).
Proof.
  intros (t & Hl & Hc).
  unfold verifyRekeyToAbstractedAccount, read_value. rewrite Hl.
  exec_unfold. simpl.
  destruct Hc as [[Hs Hr] | (Ht & Ha & Hg)].
  - unfold expected_custodian in Hr. unfold getAuthAddr.
    rewrite (bool_decide_eq_false_2 (sender t <> _))
      by (intros Hn; by apply Hn).
    rewrite (bool_decide_eq_false_2 (rekeyTo t <> _))
      by (intros Hn; by apply Hn).
    reflexivity.
  - rewrite (bool_decide_eq_true_2 _ Ht), (bool_decide_eq_true_2 _ Ha),
      (bool_decide_eq_true_2 _ Hg). simpl.
    by destruct (_ || _).
Qed.

Lemma verify_rejects c w :
  ~ group_closes c (storage w) ->
  verifyRekeyToAbstractedAccount c w = Fail InvariantViolation.
Proof.
  intros Hn.
  unfold verifyRekeyToAbstractedAccount, read_value.
  destruct (last (txnGroup c)) as [t|] eqn:Hl; [|reflexivity].
  exec_unfold. simpl.
  assert (Hr : ~ restores_control c (storage w) t)
    by (intros Hr; apply Hn; exists t; auto).
  assert (Hv : ~ reasserts_control c t)
    by (intros Hv; apply Hn; exists t; auto).
  unfold restores_control, expected_custodian in Hr.
  unfold reasserts_control in Hv. unfold getAuthAddr.
  repeat case_bd; simpl; try reflexivity; exfalso.
  all: first [ apply Hv; done | apply Hr; split; by apply dec_stable ].
Qed.

Lemma verify_outcome c w :
  verifyRekeyToAbstractedAccount c w
  = if decide (group_closes c (storage w)) then Ok (tt, w)
    else Fail InvariantViolation.
Proof.
  case_decide; [by apply verify_accepts | by apply verify_rejects].
Qed.

(** *** Delegation to a plugin *)

Lemma rekeyToPlugin_authorized c plugin w :
  authorized c (storage w) plugin ->
  arc58_rekeyToPlugin c plugin w = handoff c plugin w.
Proof.
  unfold authorized, wildcard_grant, scoped_grant, arc58_rekeyToPlugin, handoff.
  intros Ha. exec_unfold. simpl.
  destruct (plugins (storage w) !! mkKey plugin zeroAddress) as [eg|] eqn:Eg;
    destruct (plugins (storage w) !! mkKey plugin (sender (txn c)))
      as [es|] eqn:Es.
  all: try destruct (N.ltb_spec eg (latestTimestamp c)) as [Hlt|Hge].
  all: try destruct (N.ltb_spec (latestTimestamp c) es) as [Hs|Hs].
  all: simpl; try by destruct (submit_payment _ _ _).
  all: exfalso; destruct Ha as [(e & He1 & He) | (e & He1 & He)];
    simplify_eq; lia.
Qed.

Lemma rekeyToPlugin_unauthorized c plugin w :
  ~ authorized c (storage w) plugin ->
  arc58_rekeyToPlugin c plugin w = Fail NotAuthorized.
Proof.
  unfold authorized, wildcard_grant, scoped_grant, arc58_rekeyToPlugin.
  intros Ha. exec_unfold. simpl.
  destruct (plugins (storage w) !! mkKey plugin zeroAddress) as [eg|] eqn:Eg;
    destruct (plugins (storage w) !! mkKey plugin (sender (txn c)))
      as [es|] eqn:Es.
  all: try destruct (N.ltb_spec eg (latestTimestamp c)) as [Hlt|Hge].
  all: try destruct (N.ltb_spec (latestTimestamp c) es) as [Hs|Hs].
  all: simpl; try reflexivity.
  all: exfalso; apply Ha; eauto.
Qed.

Lemma handoff_outcome c plugin w l' :
  submit_payment (app_address (app c)) (plugin_payment (storage w) plugin)
                 (ledger w) = Some l' ->
  handoff c plugin w
  = if decide (group_closes c (storage w))
    then Ok (tt, mkWorld (storage w) l')
    else Fail InvariantViolation.
Proof.
  intros Hp. unfold handoff. rewrite Hp. by rewrite verify_outcome.
Qed.

Lemma handoff_success c plugin w r :
  handoff c plugin w = Ok r -> group_closes c (storage w).
Proof.
  unfold handoff. destruct (submit_payment _ _ _) as [l'|]; [|done].
  rewrite verify_outcome. simpl. by case_decide.
Qed.

(** *** Direct rekey *)

Lemma rekeyTo_unauthorized c addr flash w :
  sender (txn c) <> admin (storage w) ->
  arc58_rekeyTo c addr flash w = Fail Unauthorized.
Proof.
  intros Hn. unfold arc58_rekeyTo. exec_unfold. simpl.
  by rewrite (bool_decide_eq_false_2 _ Hn), andb_false_r.
Qed.

Lemma rekeyTo_outcome c addr flash w :
  typeEnum (txn c) = appl ->
  sender (txn c) = admin (storage w) ->
  arc58_rekeyTo c addr flash w
  = match submit_payment (app_address (app c))
            (rekey_payment (storage w) addr) (ledger w) with
    | Some l' =>
        if flash
        then verifyRekeyToAbstractedAccount c (mkWorld (storage w) l')
        else Ok (tt, mkWorld (storage w) l')
    | None => Fail TransferRejected
    end.
Proof.
  intros Ht Hs. unfold arc58_rekeyTo. exec_unfold. simpl.
  rewrite (bool_decide_eq_true_2 _ Ht), (bool_decide_eq_true_2 _ Hs). simpl.
  destruct (submit_payment _ _ _); [|done]. by destruct flash.
Qed.

Lemma rekeyTo_success c addr flash w r :
  arc58_rekeyTo c addr flash w = Ok r ->
  typeEnum (txn c) = appl /\ sender (txn c) = admin (storage w).
Proof.
  unfold arc58_rekeyTo. exec_unfold. simpl.
  destruct (decide (typeEnum (txn c) = appl)) as [Ht|Ht];
    [|by rewrite (bool_decide_eq_false_2 _ Ht)].
  destruct (decide (sender (txn c) = admin (storage w))) as [Hs|Hs];
    [done|by rewrite (bool_decide_eq_false_2 _ Hs), andb_false_r].
Qed.

(** *** Named plugins *)

Lemma addNamedPlugin_outcome c name app allowedCaller end_ w :
  arc58_addNamedPlugin c name app allowedCaller end_ w
  = if bool_decide (sender (txn c) = admin (storage w))
    then match namedPlugins (storage w) !! name with
         | Some _ => Fail AliasExists
         | None =>
             let key := mkKey app allowedCaller in
             Ok (tt, mkWorld
                       (set_plugins (<[key := end_]> (plugins (storage w)))
                          (set_namedPlugins
                             (<[name := key]> (namedPlugins (storage w)))
                             (storage w)))
                       (ledger w))
         end
    else Fail Unauthorized.
Proof.
  unfold arc58_addNamedPlugin. exec_unfold. simpl.
  case_bd; simpl; [|reflexivity].
  destruct (namedPlugins (storage w) !! name) as [k|] eqn:En.
  - rewrite bool_decide_eq_true_2 by eauto. reflexivity.
  - rewrite bool_decide_eq_false_2 by (by intros [? ?]). reflexivity.
Qed.

(** Whatever the names hold, the read that follows the deletion finds no
    box. *)
Lemma removeNamedPlugin_outcome c name w :
  arc58_removeNamedPlugin c name w
  = if bool_decide (sender (txn c) = admin (storage w))
    then Fail NotFound
    else Fail Unauthorized.
Proof.
  unfold arc58_removeNamedPlugin. exec_unfold. simpl.
  case_bd; simpl; [|reflexivity].
  by rewrite lookup_delete_eq.
Qed.

Lemma changeAdmin_outcome c newAdmin w :
  arc58_changeAdmin c newAdmin w
  = if bool_decide (sender (txn c) = admin (storage w))
    then if bool_decide (newAdmin = controlledAddress (storage w))
         then Fail InvalidAdmin
         else Ok (tt, mkWorld (set_admin newAdmin (storage w)) (ledger w))
    else Fail Unauthorized.
Proof.
  unfold arc58_changeAdmin. exec_unfold. simpl.
  repeat case_bd; simpl; done.
Qed.

(** *** The properties of the plugin contract *)

(** C1. Wherever the invariant verifier runs, it succeeds exactly when the
    final operation of the group either has the managed account as its
    sender and the expected custodian as its rekey target, or is an
    application call of the verify-control method on the owning program; it
    fails with [InvariantViolation] in every other case, and so do plugin
    delegation and flash rekey once their own checks and handoff are past. *)
Theorem invariant_verifier_iff c w :
  (succeeds (verifyRekeyToAbstractedAccount c) w
   <-> group_closes c (storage w))
  /\ (fails_with (verifyRekeyToAbstractedAccount c) w InvariantViolation
      <-> ~ group_closes c (storage w))
  /\ (forall plugin,
        (succeeds (arc58_rekeyToPlugin c plugin) w
         -> group_closes c (storage w))
        /\ (forall l',
              authorized c (storage w) plugin ->
              submit_payment (app_address (app c))
                (plugin_payment (storage w) plugin) (ledger w) = Some l' ->
              ~ group_closes c (storage w) ->
              fails_with (arc58_rekeyToPlugin c plugin) w InvariantViolation))
  /\ (forall addr,
        (succeeds (arc58_rekeyTo c addr true) w -> group_closes c (storage w))
        /\ (forall l',
              typeEnum (txn c) = appl ->
              sender (txn c) = admin (storage w) ->
              submit_payment (app_address (app c))
                (rekey_payment (storage w) addr) (ledger w) = Some l' ->
              ~ group_closes c (storage w) ->
              fails_with (arc58_rekeyTo c addr true) w InvariantViolation)).
Proof.
  unfold succeeds, fails_with. repeat split.
  - intros [r Hr]. rewrite verify_outcome in Hr. by case_decide.
  - intros Hc. rewrite (verify_accepts _ _ Hc). eauto.
  - intros Hf Hc. by rewrite (verify_accepts _ _ Hc) in Hf.
  - apply verify_rejects.
  - intros [r Hr].
    destruct (decide (authorized c (storage w) plugin)) as [Ha|Ha].
    + rewrite (rekeyToPlugin_authorized _ _ _ Ha) in Hr.
      by apply handoff_success in Hr.
    + by rewrite (rekeyToPlugin_unauthorized _ _ _ Ha) in Hr.
  - intros l' Ha Hp Hc.
    rewrite (rekeyToPlugin_authorized _ _ _ Ha), (handoff_outcome _ _ _ _ Hp).
    by case_decide.
  - intros [r Hr]. destruct (rekeyTo_success _ _ _ _ _ Hr) as [Ht Hs].
    rewrite (rekeyTo_outcome _ _ _ _ Ht Hs) in Hr.
    destruct (submit_payment _ _ _) as [l'|]; [|done].
    rewrite verify_outcome in Hr. simpl in Hr. by case_decide.
  - intros l' Ht Hs Hp Hc.
    rewrite (rekeyTo_outcome _ _ _ _ Ht Hs), Hp. by apply verify_rejects.
Qed.

(** The authorization: a wildcard grant whose expiry is not below the
    current time, or a grant to the caller whose expiry is above it. *)
Lemma rekeyToPlugin_checks_authorization c plugin w :
  authorized c (storage w) plugin
  <-> arc58_rekeyToPlugin c plugin w <> Fail NotAuthorized.
Proof.
  split.
  - intros Ha. rewrite (rekeyToPlugin_authorized _ _ _ Ha). unfold handoff.
    destruct (submit_payment _ _ _) as [l'|]; [|done].
    rewrite verify_outcome. by case_decide.
  - intros Hn. destruct (decide (authorized c (storage w) plugin)); [done|].
    by rewrite rekeyToPlugin_unauthorized in Hn.
Qed.

(** C3. The wildcard grant is resolved before the grant to the caller: with
    a valid wildcard grant the call succeeds whatever the caller's grant is;
    with the wildcard grant absent or expired, a grant to the current caller
    whose expiry is strictly above the current time makes the call succeed;
    and with the wildcard grant absent or past its expiry the call is decided
    by the caller's grant alone. *)
Theorem wildcard_before_scoped c plugin w l' :
  submit_payment (app_address (app c)) (plugin_payment (storage w) plugin)
                 (ledger w) = Some l' ->
  group_closes c (storage w) ->
  (forall e,
     wildcard_grant (storage w) plugin = Some e -> latestTimestamp c < e ->
     arc58_rekeyToPlugin c plugin w = Ok (tt, mkWorld (storage w) l'))
  /\ (forall e',
        (wildcard_grant (storage w) plugin = None
         \/ exists e, wildcard_grant (storage w) plugin = Some e
                      /\ e <= latestTimestamp c) ->
        scoped_grant (storage w) plugin (sender (txn c)) = Some e' ->
        latestTimestamp c < e' ->
        arc58_rekeyToPlugin c plugin w = Ok (tt, mkWorld (storage w) l'))
  /\ ((wildcard_grant (storage w) plugin = None
       \/ exists e, wildcard_grant (storage w) plugin = Some e
                    /\ e < latestTimestamp c) ->
      (forall e', scoped_grant (storage w) plugin (sender (txn c)) = Some e' ->
                  e' <= latestTimestamp c) ->
      arc58_rekeyToPlugin c plugin w = Fail NotAuthorized).
Proof.
  intros Hp Hc.
  assert (Hok : authorized c (storage w) plugin ->
                arc58_rekeyToPlugin c plugin w
                = Ok (tt, mkWorld (storage w) l')).
  { intros Ha.
    rewrite (rekeyToPlugin_authorized _ _ _ Ha), (handoff_outcome _ _ _ _ Hp).
    by case_decide. }
  repeat split.
  - intros e He Ht. apply Hok. left. exists e. split; [done|lia].
  - intros e' _ He Ht. apply Hok. right. eauto.
  - intros Hw Hs. apply rekeyToPlugin_unauthorized.
    intros [(e & He & Ht) | (e & He & Ht)].
    + destruct Hw as [Hw | (e0 & Hw & Hlt)]; simplify_eq. lia.
    + specialize (Hs _ He). lia.
Qed.

(** C8. A direct rekey is for the admin only, submits the payment that
    rekeys the managed account to the target, and runs the invariant
    verifier exactly when [flash] is set: a flash rekey succeeds if the group
    closes with control restored or re-asserted and fails with
    [InvariantViolation] otherwise, while without [flash] the call succeeds
    whatever the group is. *)
Theorem rekeyTo_flash_spec c addr flash w :
  (succeeds (arc58_rekeyTo c addr flash) w
   -> sender (txn c) = admin (storage w))
  /\ (sender (txn c) <> admin (storage w)
      -> fails_with (arc58_rekeyTo c addr flash) w Unauthorized)
  /\ (forall l',
        typeEnum (txn c) = appl ->
        sender (txn c) = admin (storage w) ->
        submit_payment (app_address (app c))
          (inner_payment (controlledAddress (storage w)) addr addr
             "rekeying abstracted account")
          (ledger w) = Some l' ->
        if flash
        then (group_closes c (storage w) ->
              arc58_rekeyTo c addr flash w = Ok (tt, mkWorld (storage w) l'))
             /\ (~ group_closes c (storage w) ->
                 fails_with (arc58_rekeyTo c addr flash) w InvariantViolation)
        else arc58_rekeyTo c addr flash w = Ok (tt, mkWorld (storage w) l')).
Proof.
  unfold succeeds, fails_with. repeat split.
  - intros [r Hr]. by destruct (rekeyTo_success _ _ _ _ _ Hr).
  - apply rekeyTo_unauthorized.
  - intros l' Ht Hs Hp. rewrite (rekeyTo_outcome _ _ _ _ Ht Hs).
    unfold rekey_payment. rewrite Hp. destruct flash; [|done].
    split; intros Hc; [by apply verify_accepts | by apply verify_rejects].
Qed.

(** C6. After a successful [arc58_addNamedPlugin] of a name, a further one
    with the same name never succeeds, whatever its plugin, caller scope and
    expiry are: from the admin it fails with [AliasExists]; the grants and
    the names are left as they were. *)
Theorem addNamedPlugin_twice_fails c1 c2 name app1 caller1 end1
    app2 caller2 end2 w w1 :
  arc58_addNamedPlugin c1 name app1 caller1 end1 w = Ok (tt, w1) ->
  ~ succeeds (arc58_addNamedPlugin c2 name app2 caller2 end2) w1
  /\ (sender (txn c2) = admin (storage w1) ->
      fails_with (arc58_addNamedPlugin c2 name app2 caller2 end2) w1
                 AliasExists)
  /\ commit (arc58_addNamedPlugin c2 name app2 caller2 end2) w1 = w1.
Proof.
  rewrite addNamedPlugin_outcome. intros H1.
  assert (Hn : namedPlugins (storage w1) !! name = Some (mkKey app1 caller1)).
  { destruct (bool_decide (sender (txn c1) = _)); [|done].
    destruct (namedPlugins (storage w) !! name); [done|].
    injection H1 as <-. simpl. apply lookup_insert_eq. }
  unfold succeeds, fails_with, commit.
  rewrite addNamedPlugin_outcome, Hn.
  case_bd; repeat split; try done; by intros [r Hr].
Qed.

(** C10. [arc58_rekeyToNamedPlugin] with a name that the alias store does
    not hold fails at the read of the alias; nothing is stored and the rekey
    table is as before. *)
Theorem rekeyToNamedPlugin_unknown_name c name w :
  namedPlugins (storage w) !! name = None ->
  fails_with (arc58_rekeyToNamedPlugin c name) w NotFound
  /\ ~ succeeds (arc58_rekeyToNamedPlugin c name) w
  /\ commit (arc58_rekeyToNamedPlugin c name) w = w.
Proof.
  intros Hn.
  assert (Hf : arc58_rekeyToNamedPlugin c name w = Fail NotFound).
  { unfold arc58_rekeyToNamedPlugin. exec_unfold. simpl. by rewrite Hn. }
  unfold fails_with, succeeds, commit. rewrite Hf.
  repeat split. by intros [r Hr].
Qed.

End Verifier.
End ARC58Facts.

(** ** The earlier contract *)

Module LegacyFacts.
Import Legacy.

Section Governance.
Context `{Platform}.

Lemma legacy_changeAdmin_outcome c newAdmin w :
  changeAdmin c newAdmin w
  = if bool_decide (sender (txn c) = admin (storage w))
    then Ok (tt, mkWorld (set_admin newAdmin (storage w)) (ledger w))
    else Fail Unauthorized.
Proof. unfold changeAdmin. exec_unfold. simpl. by case_bd. Qed.

Lemma legacy_addPlugin_outcome c app w :
  addPlugin c app w
  = if bool_decide (sender (txn c) = admin (storage w))
    then Ok (tt, mkWorld (set_boxes ({[app]} ∪ plugins (storage w))
                            (storage w)) (ledger w))
    else Fail Unauthorized.
Proof. unfold addPlugin. exec_unfold. simpl. by case_bd. Qed.

(** The gate of the factory operations is the value of [this.eoa.value],
    whoever the admin is. *)
Lemma legacy_addFactory_outcome eoa c app w :
  addFactory eoa c app w
  = if bool_decide (Some (sender (txn c)) = eoa)
    then Ok (tt, mkWorld (set_boxes ({[app]} ∪ factories (storage w))
                            (storage w)) (ledger w))
    else Fail Unauthorized.
Proof. unfold addFactory. exec_unfold. simpl. by case_bd. Qed.

Lemma legacy_removeFactory_outcome eoa c app w :
  removeFactory eoa c app w
  = if bool_decide (Some (sender (txn c)) = eoa)
    then Ok (tt, mkWorld (set_boxes (factories (storage w) ∖ {[app]})
                            (storage w)) (ledger w))
    else Fail Unauthorized.
Proof. unfold removeFactory. exec_unfold. simpl. by case_bd. Qed.

End Governance.
End LegacyFacts.

(** ** Creation and the admin, in both contracts *)

Section Creation.
Context `{Platform}.

Lemma sender_includedIn (x a b : Address) : x ∈ [a; b] <-> x = a \/ x = b.
Proof. rewrite !elem_of_cons, elem_of_nil. tauto. Qed.

Lemma arc58_createApplication_outcome c address admin :
  ARC58.createApplication c address admin
  = if bool_decide (typeEnum (txn c) = appl
                    /\ (sender (txn c) = address \/ sender (txn c) = admin))
    then if bool_decide (admin = address) then Fail InvalidAdmin
         else Ok (ARC58.mkState admin
                    (if bool_decide (address = zeroAddress)
                     then app_address (app c) else address) ∅ ∅)
    else Fail Unauthorized.
Proof.
  unfold ARC58.createApplication.
  destruct (decide (typeEnum (txn c) = appl)) as [Ht|Ht].
  - rewrite (bool_decide_eq_true_2 _ Ht). simpl.
    destruct (decide (sender (txn c) ∈ [address; admin])) as [Hs|Hs].
    + rewrite (bool_decide_eq_true_2 _ Hs). simpl.
      apply sender_includedIn in Hs.
      rewrite (bool_decide_eq_true_2 (_ /\ _)) by tauto.
      by repeat case_bd.
    + rewrite (bool_decide_eq_false_2 _ Hs). simpl.
      rewrite sender_includedIn in Hs.
      by rewrite (bool_decide_eq_false_2 (_ /\ _)) by tauto.
  - rewrite (bool_decide_eq_false_2 _ Ht). simpl.
    by rewrite (bool_decide_eq_false_2 (_ /\ _)) by tauto.
Qed.

Lemma legacy_createApplication_outcome c address admin :
  Legacy.createApplication c address admin
  = if bool_decide (typeEnum (txn c) = appl
                    /\ (sender (txn c) = address \/ sender (txn c) = admin))
    then if bool_decide (admin = address) then Fail InvalidAdmin
         else
           let address' := if bool_decide (address = zeroAddress)
                           then app_address (app c) else address in
           Ok (Legacy.mkState admin address'
                 (if bool_decide (address' = app_address (app c))
                  then zeroAddress else app_address (app c))
                 ∅)
    else Fail Unauthorized.
Proof.
  unfold Legacy.createApplication.
  destruct (decide (typeEnum (txn c) = appl)) as [Ht|Ht].
  - rewrite (bool_decide_eq_true_2 _ Ht). simpl.
    destruct (decide (sender (txn c) ∈ [address; admin])) as [Hs|Hs].
    + rewrite (bool_decide_eq_true_2 _ Hs). simpl.
      apply sender_includedIn in Hs.
      rewrite (bool_decide_eq_true_2 (_ /\ _)) by tauto.
      by repeat case_bd.
    + rewrite (bool_decide_eq_false_2 _ Hs). simpl.
      rewrite sender_includedIn in Hs.
      by rewrite (bool_decide_eq_false_2 (_ /\ _)) by tauto.
  - rewrite (bool_decide_eq_false_2 _ Ht). simpl.
    by rewrite (bool_decide_eq_false_2 (_ /\ _)) by tauto.
Qed.

(** C9. In both contracts [createApplication] succeeds only for a sender
    that is one of the two identities it is given: a call from any third
    identity fails (and a call from one of the two succeeds if the two
    differ). *)
Theorem createApplication_sender_check c address admin :
  (forall s, ARC58.createApplication c address admin = Ok s ->
             sender (txn c) = address \/ sender (txn c) = admin)
  /\ (forall s, Legacy.createApplication c address admin = Ok s ->
                sender (txn c) = address \/ sender (txn c) = admin)
  /\ (sender (txn c) <> address -> sender (txn c) <> admin ->
      ARC58.createApplication c address admin = Fail Unauthorized
      /\ Legacy.createApplication c address admin = Fail Unauthorized)
  /\ (typeEnum (txn c) = appl ->
      sender (txn c) = address \/ sender (txn c) = admin ->
      admin <> address ->
      (exists s, ARC58.createApplication c address admin = Ok s)
      /\ (exists s, Legacy.createApplication c address admin = Ok s)).
Proof.
  rewrite arc58_createApplication_outcome, legacy_createApplication_outcome.
  destruct (decide (typeEnum (txn c) = appl
                    /\ (sender (txn c) = address \/ sender (txn c) = admin)))
    as [Hd|Hd].
  - rewrite (bool_decide_eq_true_2 _ Hd).
    split; [tauto|]. split; [tauto|]. split; [tauto|].
    intros _ _ Hne. rewrite (bool_decide_eq_false_2 _ Hne). eauto.
  - rewrite (bool_decide_eq_false_2 _ Hd).
    split; [done|]. split; [done|]. split; [done|]. tauto.
Qed.

(** The collision of admin and managed account at creation, and at a change
    of admin in the plugin contract. *)
Lemma createApplication_rejects_collision c a :
  (forall s, ARC58.createApplication c a a <> Ok s)
  /\ (forall s, Legacy.createApplication c a a <> Ok s)
  /\ (typeEnum (txn c) = appl -> sender (txn c) = a ->
      ARC58.createApplication c a a = Fail InvalidAdmin
      /\ Legacy.createApplication c a a = Fail InvalidAdmin).
Proof.
  rewrite arc58_createApplication_outcome, legacy_createApplication_outcome.
  rewrite (bool_decide_eq_true_2 (a = a)) by done.
  split; [intros s; by case_bd|]. split; [intros s; by case_bd|].
  intros Ht Hs. by rewrite bool_decide_eq_true_2 by tauto.
Qed.

Lemma arc58_changeAdmin_rejects_collision c w :
  ~ succeeds (ARC58.arc58_changeAdmin c (ARC58.controlledAddress (storage w))) w
  /\ (sender (txn c) = ARC58.admin (storage w) ->
      fails_with (ARC58.arc58_changeAdmin c
                    (ARC58.controlledAddress (storage w))) w InvalidAdmin)
  /\ commit (ARC58.arc58_changeAdmin c (ARC58.controlledAddress (storage w))) w
     = w.
Proof.
  unfold succeeds, fails_with, commit.
  rewrite ARC58Facts.changeAdmin_outcome.
  rewrite (bool_decide_eq_true_2 (_ = ARC58.controlledAddress _)) by done.
  case_bd; repeat split; try done; by intros [r Hr].
Qed.

End Creation.

(** ** The contracts on the small deployment *)

Module Deployment.
Import Reference Scenario.

(** C2. A wildcard grant is still honoured at the very second of its
    expiry: with the only grant of the delegate being the wildcard grant of
    expiry 100, no grant has an expiry above the time 100, and yet the
    delegation at time 100 is authorized and succeeds; the grant to the
    caller with the same expiry is refused at that time. *)
Theorem wildcard_grant_valid_at_expiry :
  let s := arc58_storage {[ wildcard_key := 100 ]} ∅ in
  let s' := arc58_storage {[ scoped_key := 100 ]} ∅ in
  let c := ctx caller 100 [rekey_back] in
  (forall k e, ARC58.plugins s !! k = Some e -> ~ latestTimestamp c < e)
  /\ ARC58.arc58_rekeyToPlugin c delegate (mkWorld s ledger0)
     = Ok (tt, mkWorld s {[ account := app_address delegate ]})
  /\ ARC58.arc58_rekeyToPlugin c delegate (mkWorld s' ledger0)
     = Fail NotAuthorized.
Proof.
  simpl. split; [|split].
  - intros k e [_ <-]%lookup_singleton_Some. lia.
  - vm_compute. reflexivity.
  - vm_compute. reflexivity.
Qed.

(** C4. In the earlier contract a change of admin to the managed account
    itself is accepted: on the storage made by [createApplication] the
    admin's call succeeds and leaves the admin equal to the managed account,
    where the plugin contract aborts the same call with [InvalidAdmin]. *)
Theorem legacy_changeAdmin_accepts_managed_account :
  let c := ctx owner 0 [] in
  let w := mkWorld legacy_storage ledger0 in
  Legacy.createApplication c account owner = Ok legacy_storage
  /\ Legacy.changeAdmin c account w
     = Ok (tt, mkWorld (Legacy.set_admin account legacy_storage)
                 ledger0)
  /\ Legacy.admin (storage (commit (Legacy.changeAdmin c account) w))
     = Legacy.address (storage (commit (Legacy.changeAdmin c account) w))
  /\ ARC58.arc58_changeAdmin c account (mkWorld (arc58_storage ∅ ∅) ledger0)
     = Fail InvalidAdmin.
Proof. simpl. repeat split; vm_compute; reflexivity. Qed.

(** C7. [arc58_removeNamedPlugin] does not remove a stored name: the admin's
    call on the name "swap", stored with a grant under its key, aborts at
    the read of the key, which follows the deletion of the box it is read
    from; the name and the grant are both still there afterwards. *)
Theorem removeNamedPlugin_aborts_on_stored_name :
  let c := ctx owner 20 [] in
  let w := mkWorld (arc58_storage {[ wildcard_key := 100 ]}
                      {[ "swap" := wildcard_key ]}) ledger0 in
  sender (txn c) = ARC58.admin (storage w)
  /\ ARC58.namedPlugins (storage w) !! "swap" = Some wildcard_key
  /\ ARC58.arc58_removeNamedPlugin c "swap" w = Fail NotFound
  /\ ARC58.namedPlugins
       (storage (commit (ARC58.arc58_removeNamedPlugin c "swap") w))
     !! "swap" = Some wildcard_key
  /\ ARC58.plugins
       (storage (commit (ARC58.arc58_removeNamedPlugin c "swap") w))
     !! wildcard_key = Some 100.
Proof. simpl. repeat split; vm_compute; reflexivity. Qed.

(** A flash rekey to [outsider], closed by the payment with which
    [outsider] rekeys the managed account back: the call succeeds, and after
    the closing payment the managed account is again under the expected
    custodian. *)
Example flash_rekey_round_trip :
  let s := arc58_storage ∅ ∅ in
  let c := ctx owner 50 [rekey_back] in
  exists l1 l2,
    ARC58.arc58_rekeyTo c outsider true (mkWorld s ledger0)
    = Ok (tt, mkWorld s l1)
    /\ control_holder l1 account = outsider
    /\ transfer_control outsider rekey_back l1 = Some l2
    /\ ARC58.arc58_verifyAuthAddr c (mkWorld s l2) = Ok (tt, mkWorld s l2).
Proof.
  exists {[ account := outsider ]}, {[ account := app_address this_app ]}.
  repeat split; vm_compute; reflexivity.
Qed.

(** *** Instances of the general properties *)

Lemma invariant_verifier_iff_witness :
  ARC58.group_closes (ctx caller 50 [rekey_back]) (arc58_storage ∅ ∅)
  /\ succeeds (ARC58.verifyRekeyToAbstractedAccount
                 (ctx caller 50 [rekey_back]))
              (mkWorld (arc58_storage ∅ ∅) ledger0).
Proof.
  assert (Hc : ARC58.group_closes (ctx caller 50 [rekey_back])
                 (arc58_storage ∅ ∅)) by closes_by_rekey.
  split; [exact Hc|].
  destruct (ARC58Facts.invariant_verifier_iff (ctx caller 50 [rekey_back])
              (mkWorld (arc58_storage ∅ ∅) ledger0)) as [[_ Hacc] _].
  apply Hacc. exact Hc.
Defined.

Lemma wildcard_before_scoped_witness :
  let s := arc58_storage {[ wildcard_key := 100; scoped_key := 200 ]} ∅ in
  let c := ctx caller 150 [rekey_back] in
  let l' : Ledger := {[ account := app_address delegate ]} in
  submit_payment (app_address (app c)) (ARC58.plugin_payment s delegate)
                 ledger0 = Some l'
  /\ ARC58.group_closes c s
  /\ ARC58.wildcard_grant s delegate = Some 100
  /\ ARC58.scoped_grant s delegate (sender (txn c)) = Some 200
  /\ ARC58.arc58_rekeyToPlugin c delegate (mkWorld s ledger0)
     = Ok (tt, mkWorld s l').
Proof.
  intros s c l'.
  assert (Hp : submit_payment (app_address (app c))
                 (ARC58.plugin_payment s delegate) ledger0 = Some l')
    by (vm_compute; reflexivity).
  assert (Hc : ARC58.group_closes c s) by closes_by_rekey.
  assert (Hw : ARC58.wildcard_grant s delegate = Some 100)
    by (vm_compute; reflexivity).
  assert (Hs : ARC58.scoped_grant s delegate (sender (txn c)) = Some 200)
    by (vm_compute; reflexivity).
  split; [exact Hp|]. split; [exact Hc|]. split; [exact Hw|].
  split; [exact Hs|].
  destruct (ARC58Facts.wildcard_before_scoped c delegate (mkWorld s ledger0)
              l' Hp Hc) as (_ & Hscoped & _).
  apply (Hscoped 200);
    [right; exists 100; split; [exact Hw | vm_compute; discriminate]
    | exact Hs | reflexivity].
Defined.

Lemma rekeyTo_flash_spec_witness :
  let s := arc58_storage ∅ ∅ in
  let c := ctx owner 50 [rekey_back] in
  let l' : Ledger := {[ account := outsider ]} in
  typeEnum (txn c) = appl
  /\ sender (txn c) = ARC58.admin s
  /\ submit_payment (app_address (app c))
       (inner_payment (ARC58.controlledAddress s) outsider outsider
          "rekeying abstracted account") ledger0 = Some l'
  /\ ARC58.arc58_rekeyTo c outsider true (mkWorld s ledger0)
     = Ok (tt, mkWorld s l')
  /\ ARC58.arc58_rekeyTo (ctx owner 50 []) outsider false (mkWorld s ledger0)
     = Ok (tt, mkWorld s l')
  /\ fails_with (ARC58.arc58_rekeyTo (ctx owner 50 []) outsider true)
                (mkWorld s ledger0) InvariantViolation.
Proof.
  intros s c l'.
  assert (Hp : submit_payment (app_address (app c))
                 (inner_payment (ARC58.controlledAddress s) outsider outsider
                    "rekeying abstracted account") ledger0 = Some l')
    by (vm_compute; reflexivity).
  split; [reflexivity|]. split; [reflexivity|]. split; [exact Hp|].
  split; [|split].
  - destruct (ARC58Facts.rekeyTo_flash_spec c outsider true
                (mkWorld s ledger0)) as (_ & _ & Hflash).
    apply (Hflash l' eq_refl eq_refl Hp). closes_by_rekey.
  - destruct (ARC58Facts.rekeyTo_flash_spec (ctx owner 50 []) outsider false
                (mkWorld s ledger0)) as (_ & _ & Hplain).
    exact (Hplain l' eq_refl eq_refl Hp).
  - destruct (ARC58Facts.rekeyTo_flash_spec (ctx owner 50 []) outsider true
                (mkWorld s ledger0)) as (_ & _ & Hflash).
    apply (Hflash l' eq_refl eq_refl Hp).
    intros (t & [= <-] & [[Hs _] | (_ & _ & Hg)]);
      [vm_compute in Hs | vm_compute in Hg]; discriminate.
Defined.

Lemma addNamedPlugin_twice_fails_witness :
  let w := mkWorld (arc58_storage ∅ ∅) ledger0 in
  let w1 := mkWorld (arc58_storage {[ wildcard_key := 100 ]}
                       {[ "swap" := wildcard_key ]}) ledger0 in
  ARC58.arc58_addNamedPlugin (ctx owner 10 []) "swap" delegate zeroAddress 100 w
  = Ok (tt, w1)
  /\ fails_with (ARC58.arc58_addNamedPlugin (ctx owner 20 []) "swap" 8 caller
                   300) w1 AliasExists
  /\ commit (ARC58.arc58_addNamedPlugin (ctx owner 20 []) "swap" 8 caller 300)
            w1 = w1.
Proof.
  intros w w1.
  assert (H1 : ARC58.arc58_addNamedPlugin (ctx owner 10 []) "swap" delegate
                 zeroAddress 100 w = Ok (tt, w1)) by (vm_compute; reflexivity).
  split; [exact H1|].
  destruct (ARC58Facts.addNamedPlugin_twice_fails (ctx owner 10 [])
              (ctx owner 20 []) "swap" delegate zeroAddress 100 8 caller 300
              w w1 H1) as (_ & Hf & Hu).
  split; [apply Hf; reflexivity | exact Hu].
Defined.

Lemma rekeyToNamedPlugin_unknown_name_witness :
  let w := mkWorld (arc58_storage {[ wildcard_key := 100 ]} ∅) ledger0 in
  ARC58.namedPlugins (storage w) !! "swap" = None
  /\ fails_with (ARC58.arc58_rekeyToNamedPlugin (ctx caller 50 [rekey_back])
                   "swap") w NotFound
  /\ commit (ARC58.arc58_rekeyToNamedPlugin (ctx caller 50 [rekey_back])
               "swap") w = w.
Proof.
  intros w.
  assert (Hn : ARC58.namedPlugins (storage w) !! "swap" = None)
    by (vm_compute; reflexivity).
  split; [exact Hn|].
  destruct (ARC58Facts.rekeyToNamedPlugin_unknown_name
              (ctx caller 50 [rekey_back]) "swap" w Hn) as (Hf & _ & Hu).
  split; [exact Hf | exact Hu].
Defined.

Lemma createApplication_sender_check_witness :
  sender (txn (ctx outsider 0 [])) <> account
  /\ sender (txn (ctx outsider 0 [])) <> owner
  /\ ARC58.createApplication (ctx outsider 0 []) account owner
     = Fail Unauthorized
  /\ Legacy.createApplication (ctx outsider 0 []) account owner
     = Fail Unauthorized
  /\ (exists s, ARC58.createApplication (ctx owner 0 []) account owner = Ok s)
  /\ (exists s, Legacy.createApplication (ctx owner 0 []) account owner = Ok s).
Proof.
  assert (Ha : sender (txn (ctx outsider 0 [])) <> account) by discriminate.
  assert (Ho : sender (txn (ctx outsider 0 [])) <> owner) by discriminate.
  split; [exact Ha|]. split; [exact Ho|].
  destruct (createApplication_sender_check (ctx outsider 0 []) account owner)
    as (_ & _ & Hthird & _).
  destruct (Hthird Ha Ho) as [H1 H2].
  split; [exact H1|]. split; [exact H2|].
  destruct (createApplication_sender_check (ctx owner 0 []) account owner)
    as (_ & _ & _ & Hok).
  apply Hok; [reflexivity | right; reflexivity | discriminate].
Defined.

End Deployment.

(** ** Further properties of the plugin contract *)

Module ARC58Extra.
Import ARC58 ARC58Facts.

Section Methods.
Context `{Platform}.

Lemma storage_eta (s : State) :
  {| admin := admin s; controlledAddress := controlledAddress s;
     plugins := plugins s; namedPlugins := namedPlugins s |} = s.
Proof. by destruct s. Qed.

Lemma world_eta (w : World State) : mkWorld (storage w) (ledger w) = w.
Proof. by destruct w. Qed.

Lemma addPlugin_outcome c app allowedCaller end_ w :
  arc58_addPlugin c app allowedCaller end_ w
  = if bool_decide (sender (txn c) = admin (storage w))
    then Ok (tt, mkWorld
                   (set_plugins
                      (<[mkKey app allowedCaller := end_]> (plugins (storage w)))
                      (storage w))
                   (ledger w))
    else Fail Unauthorized.
Proof. unfold arc58_addPlugin. exec_unfold. simpl. by case_bd. Qed.

Lemma removePlugin_outcome c app allowedCaller w :
  arc58_removePlugin c app allowedCaller w
  = if bool_decide (sender (txn c) = admin (storage w))
    then Ok (tt, mkWorld
                   (set_plugins
                      (delete (mkKey app allowedCaller) (plugins (storage w)))
                      (storage w))
                   (ledger w))
    else Fail Unauthorized.
Proof. unfold arc58_removePlugin. exec_unfold. simpl. by case_bd. Qed.

Lemma verifyAuthAddr_outcome c w :
  arc58_verifyAuthAddr c w
  = if bool_decide (account_authAddr (ledger w) (controlledAddress (storage w))
                    = getAuthAddr c (storage w))
    then Ok (tt, w) else Fail InvariantViolation.
Proof. unfold arc58_verifyAuthAddr. exec_unfold. simpl. by case_bd. Qed.

Lemma rekeyToNamedPlugin_outcome c name w :
  arc58_rekeyToNamedPlugin c name w
  = match namedPlugins (storage w) !! name with
    | Some key => arc58_rekeyToPlugin c (application key) w
    | None => Fail NotFound
    end.
Proof.
  unfold arc58_rekeyToNamedPlugin. exec_unfold. simpl.
  by destruct (namedPlugins (storage w) !! name).
Qed.

(** What a successful delegation went through. *)
Lemma rekeyToPlugin_inversion c plugin w r :
  arc58_rekeyToPlugin c plugin w = Ok r ->
  exists l',
    r = (tt, mkWorld (storage w) l')
    /\ authorized c (storage w) plugin
    /\ submit_payment (app_address (app c)) (plugin_payment (storage w) plugin)
                      (ledger w) = Some l'
    /\ group_closes c (storage w).
Proof.
  intros Hr.
  destruct (decide (authorized c (storage w) plugin)) as [Ha|Ha];
    [|by rewrite (rekeyToPlugin_unauthorized _ _ _ Ha) in Hr].
  rewrite (rekeyToPlugin_authorized _ _ _ Ha) in Hr.
  pose proof (handoff_success _ _ _ _ Hr) as Hc.
  unfold handoff in Hr.
  destruct (submit_payment _ _ _) as [l'|] eqn:Hp; [|done].
  rewrite (verify_accepts _ (mkWorld (storage w) l') Hc) in Hr.
  injection Hr as <-. eauto.
Qed.

Lemma rekeyTo_inversion c addr flash w r :
  arc58_rekeyTo c addr flash w = Ok r ->
  exists l',
    r = (tt, mkWorld (storage w) l')
    /\ sender (txn c) = admin (storage w)
    /\ submit_payment (app_address (app c)) (rekey_payment (storage w) addr)
                      (ledger w) = Some l'
    /\ (flash = true -> group_closes c (storage w)).
Proof.
  intros Hr. destruct (rekeyTo_success _ _ _ _ _ Hr) as [Ht Hs].
  rewrite (rekeyTo_outcome _ _ _ _ Ht Hs) in Hr.
  destruct (submit_payment _ _ _) as [l'|] eqn:Hp; [|done].
  exists l'. destruct flash.
  - rewrite verify_outcome in Hr. simpl in Hr.
    case_decide as Hc; [|done]. injection Hr as <-. done.
  - injection Hr as <-. done.
Qed.

(** *** Grants *)

(** X1. [arc58_addPlugin] by the admin always succeeds, whether or not the
    key already holds a grant: afterwards the key holds the given expiry,
    every other grant, the names, the global keys and the rekey table are as
    before. *)
Theorem addPlugin_upserts c app allowedCaller end_ w :
  sender (txn c) = admin (storage w) ->
  exists w',
    arc58_addPlugin c app allowedCaller end_ w = Ok (tt, w')
    /\ plugins (storage w') !! mkKey app allowedCaller = Some end_
    /\ (forall k, k <> mkKey app allowedCaller ->
                  plugins (storage w') !! k = plugins (storage w) !! k)
    /\ namedPlugins (storage w') = namedPlugins (storage w)
    /\ admin (storage w') = admin (storage w)
    /\ controlledAddress (storage w') = controlledAddress (storage w)
    /\ ledger w' = ledger w.
Proof.
  intros Hs. rewrite addPlugin_outcome, (bool_decide_eq_true_2 _ Hs).
  eexists. split; [reflexivity|]. simpl.
  split; [apply lookup_insert_eq|].
  split; [|done]. intros k Hk. by apply lookup_insert_ne.
Qed.

(** X2. [arc58_removePlugin] by the admin always succeeds, also for a key
    that holds no grant, in which case the world is unchanged; afterwards
    the key holds no grant and every other grant and the names are as
    before. *)
Theorem removePlugin_deletes c app allowedCaller w :
  sender (txn c) = admin (storage w) ->
  exists w',
    arc58_removePlugin c app allowedCaller w = Ok (tt, w')
    /\ plugins (storage w') !! mkKey app allowedCaller = None
    /\ (forall k, k <> mkKey app allowedCaller ->
                  plugins (storage w') !! k = plugins (storage w) !! k)
    /\ namedPlugins (storage w') = namedPlugins (storage w)
    /\ (plugins (storage w) !! mkKey app allowedCaller = None -> w' = w).
Proof.
  intros Hs. rewrite removePlugin_outcome, (bool_decide_eq_true_2 _ Hs).
  eexists. split; [reflexivity|]. simpl.
  split; [apply lookup_delete_eq|].
  split; [intros k Hk; by apply lookup_delete_ne|].
  split; [done|]. intros Hn. rewrite (delete_id _ _ Hn).
  unfold set_plugins. by rewrite storage_eta, world_eta.
Qed.

(** X3. Grants compose as a map: of two [arc58_addPlugin] on one key the
    later expiry stands alone, and [arc58_removePlugin] after
    [arc58_addPlugin] on a key that held no grant gives back the world as it
    was. *)
Theorem addPlugin_then_again_or_remove c1 c2 app allowedCaller end1 end2 w :
  sender (txn c1) = admin (storage w) ->
  sender (txn c2) = admin (storage w) ->
  commit (arc58_addPlugin c2 app allowedCaller end2)
         (commit (arc58_addPlugin c1 app allowedCaller end1) w)
  = commit (arc58_addPlugin c2 app allowedCaller end2) w
  /\ (plugins (storage w) !! mkKey app allowedCaller = None ->
      commit (arc58_removePlugin c2 app allowedCaller)
             (commit (arc58_addPlugin c1 app allowedCaller end1) w) = w).
Proof.
  intros H1 H2. unfold commit.
  rewrite !addPlugin_outcome, (bool_decide_eq_true_2 _ H1). simpl.
  rewrite removePlugin_outcome. simpl.
  rewrite !(bool_decide_eq_true_2 _ H2). simpl.
  unfold set_plugins. simpl. rewrite insert_insert_eq.
  split; [done|]. intros Hn. rewrite (delete_insert_id _ _ _ Hn).
  by rewrite storage_eta, world_eta.
Qed.

(** *** Who may call what *)

Lemma admin_gate c call w :
  admin_only call = true ->
  sender (txn c) <> admin (storage w) ->
  dispatch c call w = Fail Unauthorized.
Proof.
  intros Ha Hs. destruct call; try discriminate Ha; simpl.
  - by apply rekeyTo_unauthorized.
  - by rewrite changeAdmin_outcome, (bool_decide_eq_false_2 _ Hs).
  - by rewrite addPlugin_outcome, (bool_decide_eq_false_2 _ Hs).
  - by rewrite removePlugin_outcome, (bool_decide_eq_false_2 _ Hs).
  - by rewrite addNamedPlugin_outcome, (bool_decide_eq_false_2 _ Hs).
  - by rewrite removeNamedPlugin_outcome, (bool_decide_eq_false_2 _ Hs).
Qed.

Lemma open_call_never_unauthorized c call w :
  admin_only call = false -> dispatch c call w <> Fail Unauthorized.
Proof.
  assert (Hp : forall plugin, arc58_rekeyToPlugin c plugin w
                              <> Fail Unauthorized).
  { intros plugin.
    destruct (decide (authorized c (storage w) plugin)) as [Ha|Ha];
      [|by rewrite (rekeyToPlugin_unauthorized _ _ _ Ha)].
    rewrite (rekeyToPlugin_authorized _ _ _ Ha). unfold handoff.
    destruct (submit_payment _ _ _); [|done].
    rewrite verify_outcome. by case_decide. }
  intros Ha. destruct call; try discriminate Ha; simpl.
  - rewrite verifyAuthAddr_outcome. by case_bd.
  - apply Hp.
  - rewrite rekeyToNamedPlugin_outcome.
    destruct (namedPlugins (storage w) !! name); [apply Hp|done].
Qed.

(** X4. The six governance methods (direct rekey, change of admin, and the
    four methods on grants and names) abort with [Unauthorized] for every
    sender other than the admin and leave the world as it was; the three
    remaining methods have no such gate and never abort with
    [Unauthorized]. *)
Theorem governance_is_admin_only c call w :
  (admin_only call = true ->
   sender (txn c) <> admin (storage w) ->
   fails_with (dispatch c call) w Unauthorized
   /\ commit (dispatch c call) w = w)
  /\ (admin_only call = false ->
      ~ fails_with (dispatch c call) w Unauthorized).
Proof.
  unfold fails_with, commit. split.
  - intros Ha Hs. by rewrite (admin_gate _ _ _ Ha Hs).
  - apply open_call_never_unauthorized.
Qed.

(** *** What a call leaves alone *)

Lemma dispatch_success c call w r :
  dispatch c call w = Ok r ->
  exists w',
    r = (tt, w')
    /\ (writes_storage call = false -> storage w' = storage w)
    /\ (rekeys call = false -> ledger w' = ledger w)
    /\ controlledAddress (storage w') = controlledAddress (storage w)
    /\ (admin (storage w') = admin (storage w)
        \/ (call = ChangeAdmin (admin (storage w'))
            /\ admin (storage w') <> controlledAddress (storage w))).
Proof.
  destruct call; simpl.
  - rewrite verifyAuthAddr_outcome. case_bd; [|done].
    intros [= <-]. exists w. auto 10.
  - intros (l' & -> & _)%rekeyTo_inversion. eexists. simpl. split; [done|].
    repeat split; auto; done.
  - intros (l' & -> & _)%rekeyToPlugin_inversion. eexists. split; [done|].
    repeat split; auto; done.
  - rewrite rekeyToNamedPlugin_outcome.
    destruct (namedPlugins (storage w) !! name); [|done].
    intros (l' & -> & _)%rekeyToPlugin_inversion. eexists. split; [done|].
    repeat split; auto; done.
  - rewrite changeAdmin_outcome. case_bd; [|done]. case_bd; [done|].
    intros [= <-]. eexists. split; [done|]. simpl.
    repeat split; auto; done.
  - rewrite addPlugin_outcome. case_bd; [|done].
    intros [= <-]. eexists. split; [done|]. simpl.
    repeat split; auto; done.
  - rewrite removePlugin_outcome. case_bd; [|done].
    intros [= <-]. eexists. split; [done|]. simpl.
    repeat split; auto; done.
  - rewrite addNamedPlugin_outcome. case_bd; [|done].
    destruct (namedPlugins (storage w) !! name); [done|].
    intros [= <-]. eexists. split; [done|]. simpl.
    repeat split; auto; done.
  - rewrite removeNamedPlugin_outcome. by case_bd.
Qed.

(** X5. A successful call that is not one of the five storage-writing
    methods leaves the storage as it was, so a delegation does not use up
    its grant; a successful call that is not one of the three rekeying
    methods leaves the rekey table as it was. *)
Theorem call_footprint c call w w' :
  dispatch c call w = Ok (tt, w') ->
  (writes_storage call = false -> storage w' = storage w)
  /\ (rekeys call = false -> ledger w' = ledger w).
Proof.
  intros (w0 & [= <-] & Hs & Hl & _)%dispatch_success. auto.
Qed.

Lemma step_invariant c call w :
  controlledAddress (storage (commit (dispatch c call) w))
  = controlledAddress (storage w)
  /\ (admin (storage w) <> controlledAddress (storage w) ->
      admin (storage (commit (dispatch c call) w))
      <> controlledAddress (storage (commit (dispatch c call) w))).
Proof.
  unfold commit. destruct (dispatch c call w) as [[u w']|e] eqn:Hd; [|done].
  apply dispatch_success in Hd as (w0 & [= _ <-] & _ & _ & Hc & Ha).
  split; [done|]. intros Hne. rewrite Hc.
  destruct Ha as [-> | [_ Hn]]; done.
Qed.

(** X6. Along every history of calls the controlled address stays what it
    was, and an admin that differs from the controlled address still differs
    from it afterwards. *)
Theorem history_keeps_identities calls w :
  controlledAddress (storage (run calls w)) = controlledAddress (storage w)
  /\ (admin (storage w) <> controlledAddress (storage w) ->
      admin (storage (run calls w))
      <> controlledAddress (storage (run calls w))).
Proof.
  revert w. induction calls as [|[c call] rest IH]; intros w; [done|].
  simpl. destruct (IH (commit (dispatch c call) w)) as [IHc IHa].
  destruct (step_invariant c call w) as [Hc Ha].
  split; [congruence|]. auto.
Qed.

(** *** Expiry *)

Lemma authorized_earlier c1 c2 s plugin :
  sender (txn c1) = sender (txn c2) ->
  latestTimestamp c1 <= latestTimestamp c2 ->
  authorized c2 s plugin -> authorized c1 s plugin.
Proof.
  intros Hs Ht [(e & He & Hle) | (e & He & Hlt)].
  - left. exists e. split; [done|lia].
  - right. exists e. rewrite Hs. split; [done|lia].
Qed.

(** X7. Time only takes authorizations away: if a delegation is not refused
    with [NotAuthorized] at some time, the same sender is not refused at any
    earlier time on the same storage, whatever the group and the rekey
    table. *)
Theorem authorization_antitone_in_time c1 c2 plugin w1 w2 :
  storage w1 = storage w2 ->
  sender (txn c1) = sender (txn c2) ->
  latestTimestamp c1 <= latestTimestamp c2 ->
  arc58_rekeyToPlugin c2 plugin w2 <> Fail NotAuthorized ->
  arc58_rekeyToPlugin c1 plugin w1 <> Fail NotAuthorized.
Proof.
  intros Hw Hs Ht H2.
  apply rekeyToPlugin_checks_authorization.
  apply rekeyToPlugin_checks_authorization in H2.
  rewrite Hw. by apply (authorized_earlier c1 c2).
Qed.

(** *** Names *)

(** X8. A delegation by name is the delegation to the application of the
    stored key, authorized for the current sender: the caller recorded with
    the name plays no part.  After [arc58_addNamedPlugin] for a caller [a],
    the name serves [a] (everybody, if [a] is the zero address) until the
    expiry, and is refused to any other sender that had no authorization of
    its own. *)
Theorem named_delegation_checks_current_sender c0 c name app a end_ w w1 :
  arc58_addNamedPlugin c0 name app a end_ w = Ok (tt, w1) ->
  arc58_rekeyToNamedPlugin c name w1 = arc58_rekeyToPlugin c app w1
  /\ (a = zeroAddress \/ sender (txn c) = a ->
      latestTimestamp c < end_ ->
      arc58_rekeyToNamedPlugin c name w1 = handoff c app w1)
  /\ (a <> zeroAddress -> sender (txn c) <> a ->
      ~ authorized c (storage w) app ->
      arc58_rekeyToNamedPlugin c name w1 = Fail NotAuthorized).
Proof.
  rewrite addNamedPlugin_outcome.
  destruct (bool_decide (sender (txn c0) = _)); [|done].
  destruct (namedPlugins (storage w) !! name) eqn:Hn; [done|].
  intros [= <-]. rewrite rekeyToNamedPlugin_outcome. simpl.
  rewrite lookup_insert_eq. simpl. split; [done|]. split.
  - intros Ha Ht. apply rekeyToPlugin_authorized.
    unfold authorized, wildcard_grant, scoped_grant. simpl.
    destruct Ha as [-> | <-].
    + left. exists end_. rewrite lookup_insert_eq. split; [done|lia].
    + right. exists end_. by rewrite lookup_insert_eq.
  - intros Hz Hs Hna. apply rekeyToPlugin_unauthorized.
    intros Ha. apply Hna.
    unfold authorized, wildcard_grant, scoped_grant in *. simpl in Ha.
    rewrite !lookup_insert_ne in Ha by (intros [=]; congruence).
    exact Ha.
Qed.

(** X9. [arc58_addNamedPlugin] by the admin for a name not yet stored
    succeeds and stores the key under the name and the expiry under the
    key; it replaces whatever expiry the key held, and leaves every other
    name and grant as it was. *)
Theorem addNamedPlugin_stores c name app a end_ w :
  sender (txn c) = admin (storage w) ->
  namedPlugins (storage w) !! name = None ->
  exists w',
    arc58_addNamedPlugin c name app a end_ w = Ok (tt, w')
    /\ namedPlugins (storage w') !! name = Some (mkKey app a)
    /\ plugins (storage w') !! mkKey app a = Some end_
    /\ (forall n, n <> name ->
                  namedPlugins (storage w') !! n = namedPlugins (storage w) !! n)
    /\ (forall k, k <> mkKey app a ->
                  plugins (storage w') !! k = plugins (storage w) !! k).
Proof.
  intros Hs Hn.
  rewrite addNamedPlugin_outcome, (bool_decide_eq_true_2 _ Hs), Hn.
  eexists. split; [reflexivity|]. simpl.
  split; [apply lookup_insert_eq|]. split; [apply lookup_insert_eq|].
  split; intros x Hx; by apply lookup_insert_ne.
Qed.

(** X10. [arc58_removeNamedPlugin] never succeeds: for a sender other than
    the admin it aborts at the sender check, and for the admin at the read of
    the key, whether the name is stored or not.  So after
    [arc58_addNamedPlugin] the call leaves the world as the addition made
    it, with the name and the grant in place. *)
Theorem named_add_then_remove c1 c2 name app a end_ w w1 :
  arc58_addNamedPlugin c1 name app a end_ w = Ok (tt, w1) ->
  ~ succeeds (arc58_removeNamedPlugin c2 name) w1
  /\ (sender (txn c2) = admin (storage w1) ->
      fails_with (arc58_removeNamedPlugin c2 name) w1 NotFound)
  /\ (sender (txn c2) <> admin (storage w1) ->
      fails_with (arc58_removeNamedPlugin c2 name) w1 Unauthorized)
  /\ commit (arc58_removeNamedPlugin c2 name) w1 = w1
  /\ namedPlugins (storage (commit (arc58_removeNamedPlugin c2 name) w1))
     !! name = Some (mkKey app a)
  /\ plugins (storage (commit (arc58_removeNamedPlugin c2 name) w1))
     !! mkKey app a = Some end_.
Proof.
  rewrite addNamedPlugin_outcome.
  destruct (bool_decide (sender (txn c1) = _)); [|done].
  destruct (namedPlugins (storage w) !! name); [done|].
  intros [= <-]. unfold succeeds, fails_with, commit.
  rewrite removeNamedPlugin_outcome. simpl.
  case_bd; simpl.
  all: split; [by intros [r Hr]|].
  all: split; [done|]. all: split; [done|]. all: split; [done|].
  all: split; apply lookup_insert_eq.
Qed.

Lemma dispatch_keeps_names c call w r name key :
  dispatch c call w = Ok r ->
  namedPlugins (storage w) !! name = Some key ->
  namedPlugins (storage r.2) !! name = Some key.
Proof.
  intros Hd Hn.
  destruct (writes_storage call) eqn:Hw.
  - destruct call; try discriminate Hw; simpl in Hd.
    + rewrite changeAdmin_outcome in Hd.
      destruct (bool_decide (sender _ = _)); [|done].
      destruct (bool_decide (newAdmin = _)); [done|]. by injection Hd as <-.
    + rewrite addPlugin_outcome in Hd.
      destruct (bool_decide (sender _ = _)); [|done]. by injection Hd as <-.
    + rewrite removePlugin_outcome in Hd.
      destruct (bool_decide (sender _ = _)); [|done]. by injection Hd as <-.
    + rewrite addNamedPlugin_outcome in Hd.
      destruct (bool_decide (sender _ = _)); [|done].
      destruct (namedPlugins (storage w) !! name0) eqn:Hn0; [done|].
      injection Hd as <-. simpl.
      rewrite lookup_insert_ne; [done|]. intros ->. congruence.
    + rewrite removeNamedPlugin_outcome in Hd.
      by destruct (bool_decide (sender _ = _)).
  - apply dispatch_success in Hd as (w' & -> & Hs & _). simpl.
    by rewrite (Hs Hw).
Qed.

(** X11. A name, once stored, stays stored with the same key along every
    history of calls: no method takes a name away or overwrites it, and
    [arc58_addNamedPlugin] with that name never succeeds again. *)
Theorem names_are_permanent calls w name key :
  namedPlugins (storage w) !! name = Some key ->
  namedPlugins (storage (run calls w)) !! name = Some key
  /\ (forall c app a end_,
        ~ succeeds (arc58_addNamedPlugin c name app a end_) (run calls w)).
Proof.
  intros Hn.
  assert (Hrun : namedPlugins (storage (run calls w)) !! name = Some key).
  { revert w Hn. induction calls as [|[c call] rest IH]; intros w Hn; [done|].
    simpl. apply IH. unfold commit.
    destruct (dispatch c call w) as [[u w']|e] eqn:Hd; [|done].
    exact (dispatch_keeps_names _ _ _ _ _ _ Hd Hn). }
  split; [exact Hrun|]. intros c app a end_ [r Hr].
  rewrite addNamedPlugin_outcome, Hrun in Hr.
  by destruct (bool_decide (sender _ = _)).
Qed.

(** *** The admin *)

(** X12. A change of admin hands the governance over: the call of the admin
    with a new admin other than the controlled address succeeds, changes
    nothing but the admin, and afterwards every governance method aborts
    with [Unauthorized] for every sender other than the new admin, the
    former admin included. *)
Theorem changeAdmin_hands_over c newAdmin w :
  sender (txn c) = admin (storage w) ->
  newAdmin <> controlledAddress (storage w) ->
  exists w',
    arc58_changeAdmin c newAdmin w = Ok (tt, w')
    /\ w' = mkWorld (set_admin newAdmin (storage w)) (ledger w)
    /\ (forall c' call,
          admin_only call = true ->
          sender (txn c') <> newAdmin ->
          fails_with (dispatch c' call) w' Unauthorized)
    /\ (forall c' a end_,
          sender (txn c') = newAdmin ->
          succeeds (arc58_addPlugin c' a zeroAddress end_) w').
Proof.
  intros Hs Hn.
  rewrite changeAdmin_outcome, (bool_decide_eq_true_2 _ Hs),
    (bool_decide_eq_false_2 _ Hn).
  eexists. split; [reflexivity|]. split; [reflexivity|]. split.
  - intros c' call Ha Hs'. by apply admin_gate.
  - intros c' a end_ Hs'. unfold succeeds.
    rewrite addPlugin_outcome. simpl.
    rewrite (bool_decide_eq_true_2 _ Hs'). eauto.
Qed.

End Methods.

(** *** Creation *)

(** X13. The storage made by [createApplication] holds the given admin and
    the given address, the application account standing in for the zero
    address, and no grant and no name: every delegation on it is refused,
    by plugin with [NotAuthorized] and by name with [NotFound].  Its admin
    differs from its controlled address, provided the admin is not the
    application account. *)
Theorem created_storage `{Platform} c address adm s :
  createApplication c address adm = Ok s ->
  admin s = adm
  /\ controlledAddress s
     = (if bool_decide (address = zeroAddress) then app_address (app c)
        else address)
  /\ (adm <> app_address (app c) -> admin s <> controlledAddress s)
  /\ (forall c' plugin l,
        arc58_rekeyToPlugin c' plugin (mkWorld s l) = Fail NotAuthorized)
  /\ (forall c' name l,
        arc58_rekeyToNamedPlugin c' name (mkWorld s l) = Fail NotFound).
Proof.
  rewrite arc58_createApplication_outcome.
  destruct (bool_decide (_ /\ _)); [|done].
  case_bd; [done|]. intros [= <-]. simpl.
  split; [done|]. split; [done|]. split; [|split].
  - intros Ha. case_bd; congruence.
  - intros c' plugin l. apply rekeyToPlugin_unauthorized.
    unfold authorized, wildcard_grant, scoped_grant. simpl.
    intros [(e & He & _) | (e & He & _)]; by rewrite lookup_empty in He.
  - intros c' name l. rewrite rekeyToNamedPlugin_outcome.
    simpl. by rewrite lookup_empty.
Qed.

End ARC58Extra.

(** ** Further properties of the earlier contract *)

Module LegacyExtra.
Import Legacy LegacyFacts.

(* The set solver clears hypotheses by name; some are absent here. *)
#[local] Set Warnings "-clear-no-such-hyp".

Section Methods.
Context `{Platform}.



Lemma legacy_verify_accepts c w :
  group_closes c (storage w) ->
  verifyRekeyToAbstractedAccount c w = Ok (tt, w).
Proof.
  intros (t & Hl & Hc).
  unfold verifyRekeyToAbstractedAccount, read_value. rewrite Hl.
  exec_unfold. simpl.
  destruct Hc as [[Hs Hr] | (Ht & Ha & Hg)].
  - repeat case_bd; simpl; done.
  - rewrite (bool_decide_eq_true_2 _ Ht), (bool_decide_eq_true_2 _ Ha),
      (bool_decide_eq_true_2 _ Hg). simpl.
    by destruct (_ || _).
Qed.

Lemma legacy_verify_success c w r :
  verifyRekeyToAbstractedAccount c w = Ok r ->
  group_closes c (storage w) /\ r = (tt, w).
Proof.
  unfold verifyRekeyToAbstractedAccount, read_value, group_closes.
  destruct (last (txnGroup c)) as [t|] eqn:Hl; [|done].
  exec_unfold. simpl.
  repeat case_bd; simpl; try done; intros [= <-]; (split; [|done]);
    exists t; (split; [done|]);
    first [ by right | left; split; by apply dec_stable ].
Qed.

Lemma legacy_verify_failure c w e :
  verifyRekeyToAbstractedAccount c w = Fail e -> e = InvariantViolation.
Proof.
  unfold verifyRekeyToAbstractedAccount, read_value.
  destruct (last (txnGroup c)) as [t|] eqn:Hl; [|by intros [= <-]].
  exec_unfold. simpl.
  repeat case_bd; simpl; try done; by intros [= <-].
Qed.

Lemma legacy_verify_rejects c w :
  ~ group_closes c (storage w) ->
  verifyRekeyToAbstractedAccount c w = Fail InvariantViolation.
Proof.
  intros Hn.
  destruct (verifyRekeyToAbstractedAccount c w) as [r|e] eqn:Hv.
  - by apply legacy_verify_success in Hv as [Hc _].
  - by apply legacy_verify_failure in Hv as ->.
Qed.

(** X14. The verifier of the earlier contract succeeds exactly when the last
    transaction of the group has the stored address as its sender and the
    stored [authAddr] as its rekey target, or is an application call of
    [verifyAppAuthAddr] on this application (an empty group never passes);
    it then returns the world as it was, and otherwise aborts with
    [InvariantViolation]. *)
Theorem legacy_verifier_iff c w :
  (verifyRekeyToAbstractedAccount c w = Ok (tt, w)
   <-> group_closes c (storage w))
  /\ (fails_with (verifyRekeyToAbstractedAccount c) w InvariantViolation
      <-> ~ group_closes c (storage w))
  /\ (forall r, verifyRekeyToAbstractedAccount c w = Ok r -> r = (tt, w))
  /\ (txnGroup c = [] -> ~ group_closes c (storage w)).
Proof.
  unfold fails_with.
  assert (Hcases : forall r, verifyRekeyToAbstractedAccount c w = Ok r ->
                             group_closes c (storage w) /\ r = (tt, w)).
  { apply legacy_verify_success. }
  split; [|split; [|split]].
  - split; [|apply legacy_verify_accepts].
    intros Hr. by destruct (Hcases _ Hr).
  - split; [|apply legacy_verify_rejects].
    intros Hf Hc. by rewrite (legacy_verify_accepts _ _ Hc) in Hf.
  - intros r Hr. by destruct (Hcases _ Hr).
  - intros He (t & Hl & _). by rewrite He in Hl.
Qed.

(** *** Delegation and direct rekey *)

Lemma legacy_rekeyToPlugin_outcome c plugin w :
  rekeyToPlugin c plugin w
  = if bool_decide (plugin ∈ plugins (storage w)
                    \/ plugin ∈ factories (storage w))
    then match submit_payment (app_address (app c))
                 (inner_payment (address (storage w)) (address (storage w))
                    (app_address plugin) "rekeying to plugin app")
                 (ledger w) with
         | Some l' =>
             verifyRekeyToAbstractedAccount c (mkWorld (storage w) l')
         | None => Fail TransferRejected
         end
    else Fail NotAuthorized.
Proof.
  unfold rekeyToPlugin. exec_unfold. simpl.
  repeat case_bd; simpl; try tauto; by destruct (submit_payment _ _ _).
Qed.

Lemma legacy_rekeyTo_outcome c addr flash w :
  rekeyTo c addr flash w
  = if bool_decide (typeEnum (txn c) = appl
                    /\ sender (txn c) = admin (storage w))
    then match submit_payment (app_address (app c))
                 (inner_payment (address (storage w)) addr addr
                    "rekeying abstracted account")
                 (ledger w) with
         | Some l' =>
             if flash
             then verifyRekeyToAbstractedAccount c (mkWorld (storage w) l')
             else Ok (tt, mkWorld (storage w) l')
         | None => Fail TransferRejected
         end
    else Fail Unauthorized.
Proof.
  unfold rekeyTo. exec_unfold. simpl.
  repeat case_bd; simpl; try tauto;
    destruct (submit_payment _ _ _); try done; by destruct flash.
Qed.

(** X15. In the earlier contract a delegation is authorized exactly for the
    applications of the plugin set and of the factory set, for every sender
    and at every time; an authorized delegation whose payment is accepted
    succeeds, with the storage unchanged, if the group closes, and aborts
    with [InvariantViolation] if not; any other application is refused with
    [NotAuthorized]. *)
Theorem legacy_rekeyToPlugin_spec c plugin w :
  (plugin ∉ plugins (storage w) -> plugin ∉ factories (storage w) ->
   fails_with (rekeyToPlugin c plugin) w NotAuthorized)
  /\ (forall l',
        plugin ∈ plugins (storage w) \/ plugin ∈ factories (storage w) ->
        submit_payment (app_address (app c))
          (inner_payment (address (storage w)) (address (storage w))
             (app_address plugin) "rekeying to plugin app")
          (ledger w) = Some l' ->
        (group_closes c (storage w) ->
         rekeyToPlugin c plugin w = Ok (tt, mkWorld (storage w) l'))
        /\ (~ group_closes c (storage w) ->
            fails_with (rekeyToPlugin c plugin) w InvariantViolation))
  /\ (forall r,
        rekeyToPlugin c plugin w = Ok r ->
        (plugin ∈ plugins (storage w) \/ plugin ∈ factories (storage w))
        /\ group_closes c (storage w)
        /\ storage r.2 = storage w).
Proof.
  unfold fails_with. rewrite legacy_rekeyToPlugin_outcome.
  split; [|split].
  - intros Hp Hf. by rewrite bool_decide_eq_false_2 by tauto.
  - intros l' Ha Hp. rewrite (bool_decide_eq_true_2 _ Ha), Hp.
    split; [apply (legacy_verify_accepts c (mkWorld (storage w) l'))
           | apply (legacy_verify_rejects c (mkWorld (storage w) l'))].
  - intros r. case_bd; [|done].
    destruct (submit_payment _ _ _) as [l'|]; [|done].
    intros [Hc ->]%legacy_verify_success. done.
Qed.

(** X16. The direct rekey of the earlier contract is for the admin only,
    submits the payment that rekeys the stored address to the target, and
    runs the verifier exactly when [flash] is set: without [flash] it
    succeeds whatever the group is, with [flash] it succeeds if the group
    closes and aborts with [InvariantViolation] if not. *)
Theorem legacy_rekeyTo_spec c addr flash w :
  (sender (txn c) <> admin (storage w) ->
   fails_with (rekeyTo c addr flash) w Unauthorized)
  /\ (succeeds (rekeyTo c addr flash) w ->
      sender (txn c) = admin (storage w)
      /\ (flash = true -> group_closes c (storage w)))
  /\ (forall l',
        typeEnum (txn c) = appl ->
        sender (txn c) = admin (storage w) ->
        submit_payment (app_address (app c))
          (inner_payment (address (storage w)) addr addr
             "rekeying abstracted account")
          (ledger w) = Some l' ->
        if flash
        then (group_closes c (storage w) ->
              rekeyTo c addr flash w = Ok (tt, mkWorld (storage w) l'))
             /\ (~ group_closes c (storage w) ->
                 fails_with (rekeyTo c addr flash) w InvariantViolation)
        else rekeyTo c addr flash w = Ok (tt, mkWorld (storage w) l')).
Proof.
  unfold fails_with, succeeds. rewrite legacy_rekeyTo_outcome.
  split; [|split].
  - intros Hs. by rewrite bool_decide_eq_false_2 by tauto.
  - intros [r Hr]. revert Hr. case_bd; [|done]. split; [tauto|].
    intros ->. destruct (submit_payment _ _ _); [|done].
    by apply legacy_verify_success in Hr as [Hc _].
  - intros l' Ht Hs Hp. rewrite bool_decide_eq_true_2 by tauto. rewrite Hp.
    destruct flash; [|done].
    split; [apply (legacy_verify_accepts c (mkWorld (storage w) l'))
           | apply (legacy_verify_rejects c (mkWorld (storage w) l'))].
Qed.

(** *** The plugin set *)

Lemma legacy_removePlugin_outcome c app w :
  removePlugin c app w
  = if bool_decide (sender (txn c) = admin (storage w))
    then Ok (tt, mkWorld (set_boxes (plugins (storage w) ∖ {[app]})
                            (storage w)) (ledger w))
    else Fail Unauthorized.
Proof. unfold removePlugin. exec_unfold. simpl. by case_bd. Qed.

Lemma legacy_addFactoryPlugin_outcome c factory app w :
  addFactoryPlugin c factory app w
  = if bool_decide (factory ∈ factories (storage w)
                    /\ app_creator app = app_address factory
                    /\ sender (txn c) = app_address factory)
    then Ok (tt, mkWorld (set_boxes ({[app]} ∪ plugins (storage w))
                            (storage w)) (ledger w))
    else Fail NotAuthorized.
Proof.
  unfold addFactoryPlugin. exec_unfold. simpl.
  repeat case_bd; simpl; try done; tauto.
Qed.

Lemma legacy_verifyAppAuthAddr_outcome c w :
  verifyAppAuthAddr c w
  = if bool_decide (account_authAddr (ledger w) (address (storage w))
                    = authAddr (storage w))
    then Ok (tt, w) else Fail InvariantViolation.
Proof. unfold verifyAppAuthAddr. exec_unfold. simpl. by case_bd. Qed.


(** X18. [addFactoryPlugin] asks nothing of the admin: it succeeds exactly
    when the factory passes the check of the factory boxes, the application
    was created by the factory's account and the sender is that account, and
    aborts with [NotAuthorized] otherwise; on success the application joins
    the plugin set, so that the delegation to it is authorized from then on.
    As the two box maps name their boxes alike, an application that the
    admin added with [addPlugin] passes the check of the factory boxes. *)
Theorem legacy_addFactoryPlugin_spec c factory app w :
  (succeeds (addFactoryPlugin c factory app) w
   <-> factory ∈ factories (storage w)
       /\ app_creator app = app_address factory
       /\ sender (txn c) = app_address factory)
  /\ (~ succeeds (addFactoryPlugin c factory app) w
      -> fails_with (addFactoryPlugin c factory app) w NotAuthorized)
  /\ (forall w',
        addFactoryPlugin c factory app w = Ok (tt, w') ->
        plugins (storage w') = {[app]} ∪ plugins (storage w)
        /\ admin (storage w') = admin (storage w)
        /\ ledger w' = ledger w
        /\ forall c', rekeyToPlugin c' app w' <> Fail NotAuthorized)
  /\ (forall c0 w0,
        addPlugin c0 factory w0 = Ok (tt, w) ->
        app_creator app = app_address factory ->
        sender (txn c) = app_address factory ->
        succeeds (addFactoryPlugin c factory app) w).
Proof.
  unfold succeeds, fails_with. rewrite legacy_addFactoryPlugin_outcome.
  split; [|split; [|split]].
  - case_bd; split; try done; eauto. by intros [r Hr].
  - case_bd; [|done]. intros Hn. exfalso. apply Hn. eauto.
  - intros w'. case_bd; [|done]. intros [= <-]. simpl.
    repeat split. intros c'. rewrite legacy_rekeyToPlugin_outcome.
    unfold plugins, factories. simpl.
    rewrite bool_decide_eq_true_2 by set_solver.
    destruct (submit_payment _ _ _); [|done].
    destruct (verifyRekeyToAbstractedAccount _ _) as [r|e] eqn:Hv; [done|].
    by apply legacy_verify_failure in Hv as ->.
  - intros c0 w0 Ha Hc Hs. rewrite legacy_addPlugin_outcome in Ha.
    destruct (bool_decide (sender (txn c0) = _)); [|done].
    injection Ha as <-. unfold plugins, factories. simpl.
    rewrite bool_decide_eq_true_2; [eauto|].
    split; [set_solver|done].
Qed.

End Methods.

(** *** Histories *)

Section Histories.
Context `{Platform}.
Variable eoa : option Address.

(** No call writes the address or its expected [authAddr]. *)
Lemma legacy_step c call w :
  address (storage (commit (dispatch eoa c call) w)) = address (storage w)
  /\ authAddr (storage (commit (dispatch eoa c call) w))
     = authAddr (storage w).
Proof.
  unfold commit. destruct call; simpl.
  - rewrite legacy_verifyAppAuthAddr_outcome. by case_bd.
  - rewrite legacy_rekeyTo_outcome. case_bd; [|done].
    destruct (submit_payment _ _ _) as [l'|]; [|done].
    destruct flash; [|done].
    destruct (verifyRekeyToAbstractedAccount _ _) as [r|e] eqn:Hv; [|done].
    by apply legacy_verify_success in Hv as [_ ->].
  - rewrite legacy_rekeyToPlugin_outcome. case_bd; [|done].
    destruct (submit_payment _ _ _) as [l'|]; [|done].
    destruct (verifyRekeyToAbstractedAccount _ _) as [r|e] eqn:Hv; [|done].
    by apply legacy_verify_success in Hv as [_ ->].
  - rewrite legacy_changeAdmin_outcome. by case_bd.
  - rewrite legacy_addPlugin_outcome. by case_bd.
  - rewrite legacy_removePlugin_outcome. by case_bd.
  - rewrite legacy_addFactory_outcome. by case_bd.
  - rewrite legacy_removeFactory_outcome. by case_bd.
  - rewrite legacy_addFactoryPlugin_outcome. by case_bd.
Qed.

Lemma legacy_run_keeps calls w :
  address (storage (run eoa calls w)) = address (storage w)
  /\ authAddr (storage (run eoa calls w)) = authAddr (storage w).
Proof.
  revert w. induction calls as [|[c call] rest IH]; intros w; [done|].
  simpl. destruct (legacy_step c call w) as (Ha & Hu).
  destruct (IH (commit (dispatch eoa c call) w)) as (IHa & IHu).
  by rewrite IHa, IHu, Ha, Hu.
Qed.

(** X19. Along every history of calls that starts from the storage made by
    [createApplication], whatever [this.eoa.value] stands for, the address
    and its expected [authAddr] stay what creation made them, the
    [authAddr] being the zero address if the address is the application
    account and the application account otherwise; so the verifier accepts
    after the history the groups it accepted at creation, and no others. *)
Theorem legacy_history c0 address0 admin0 s calls l :
  createApplication c0 address0 admin0 = Ok s ->
  let w' := run eoa calls (mkWorld s l) in
  address (storage w') = address s
  /\ authAddr (storage w') = authAddr s
  /\ authAddr s = (if bool_decide (address s = app_address (app c0))
                   then zeroAddress else app_address (app c0))
  /\ (forall c, group_closes c (storage w') <-> group_closes c s)
  /\ (forall c, verifyRekeyToAbstractedAccount c w' = Ok (tt, w')
                <-> verifyRekeyToAbstractedAccount c (mkWorld s l)
                    = Ok (tt, mkWorld s l)).
Proof.
  intros Hc w'.
  assert (Hu0 : authAddr s
                = (if bool_decide (address s = app_address (app c0))
                   then zeroAddress else app_address (app c0))).
  { rewrite legacy_createApplication_outcome in Hc.
    destruct (bool_decide (_ /\ _)); [|done].
    destruct (bool_decide (admin0 = address0)); [done|].
    by injection Hc as <-. }
  destruct (legacy_run_keeps calls (mkWorld s l)) as (Ha & Hu).
  fold w' in Ha, Hu. simpl in Ha, Hu.
  assert (Hg : forall c, group_closes c (storage w') <-> group_closes c s).
  { intros c. unfold group_closes. by rewrite Ha, Hu. }
  split; [done|]. split; [done|]. split; [done|]. split; [done|].
  intros c. split; intros Hv.
  - apply (legacy_verify_accepts c (mkWorld s l)). apply Hg.
    by apply legacy_verify_success in Hv as [Hv _].
  - apply legacy_verify_accepts. apply Hg.
    by apply legacy_verify_success in Hv as [Hv _].
Qed.

End Histories.
End LegacyExtra.


(** ** The two contracts at creation *)

(** X20. The two contracts agree at creation: [createApplication] succeeds
    in the one exactly when it does in the other and aborts at the same
    assertion, and on success they store the same admin and the same
    address, the [authAddr] stored by the earlier contract being the value
    that [getAuthAddr] computes in the plugin contract. *)
Theorem creation_agrees `{Platform} c address admin :
  match ARC58.createApplication c address admin,
        Legacy.createApplication c address admin with
  | Ok s, Ok s' =>
      ARC58.admin s = Legacy.admin s'
      /\ ARC58.controlledAddress s = Legacy.address s'
      /\ ARC58.getAuthAddr c s = Legacy.authAddr s'
  | Fail e, Fail e' => e = e'
  | _, _ => False
  end.
Proof.
  rewrite arc58_createApplication_outcome, legacy_createApplication_outcome.
  destruct (bool_decide (_ /\ _)); [|done].
  destruct (bool_decide (admin = address)); done.
Qed.

(** ** The further properties on the small deployment *)

Module DeploymentExtra.
Import Reference Scenario ScenarioExtra.

Ltac legacy_closes_by_rekey :=
  exists rekey_back; split; [reflexivity | left; split; reflexivity].

Ltac not_authorized_here :=
  let He := fresh in
  intros [(? & He & _) | (? & He & _)]; vm_compute in He; discriminate.

Lemma addPlugin_upserts_witness :
  let c := ctx owner 10 [] in
  let w := mkWorld (arc58_storage {[ scoped_key := 7 ]} ∅) ledger0 in
  sender (txn c) = ARC58.admin (storage w)
  /\ exists w',
       ARC58.arc58_addPlugin c delegate caller 100 w = Ok (tt, w')
       /\ ARC58.plugins (storage w') !! scoped_key = Some 100.
Proof.
  intros c w. split; [reflexivity|].
  destruct (ARC58Extra.addPlugin_upserts c delegate caller 100 w eq_refl)
    as (w' & H1 & H2 & _).
  exists w'. split; [exact H1 | exact H2].
Defined.

Lemma removePlugin_deletes_witness :
  let c := ctx owner 10 [] in
  let w := mkWorld (arc58_storage {[ scoped_key := 7 ]} ∅) ledger0 in
  sender (txn c) = ARC58.admin (storage w)
  /\ (exists w',
        ARC58.arc58_removePlugin c delegate caller w = Ok (tt, w')
        /\ ARC58.plugins (storage w') !! scoped_key = None)
  /\ ARC58.arc58_removePlugin c delegate zeroAddress w = Ok (tt, w).
Proof.
  intros c w. split; [reflexivity|]. split.
  - destruct (ARC58Extra.removePlugin_deletes c delegate caller w eq_refl)
      as (w' & H1 & H2 & _).
    exists w'. split; [exact H1 | exact H2].
  - destruct (ARC58Extra.removePlugin_deletes c delegate zeroAddress w eq_refl)
      as (w' & H1 & _ & _ & _ & H5).
    rewrite H1, H5; [reflexivity | vm_compute; reflexivity].
Defined.

Lemma addPlugin_then_again_or_remove_witness :
  let c1 := ctx owner 10 [] in
  let c2 := ctx owner 20 [] in
  let w := mkWorld (arc58_storage ∅ ∅) ledger0 in
  sender (txn c1) = ARC58.admin (storage w)
  /\ sender (txn c2) = ARC58.admin (storage w)
  /\ ARC58.plugins (storage w) !! scoped_key = None
  /\ commit (ARC58.arc58_removePlugin c2 delegate caller)
            (commit (ARC58.arc58_addPlugin c1 delegate caller 100) w) = w.
Proof.
  intros c1 c2 w.
  assert (Hn : ARC58.plugins (storage w) !! scoped_key = None)
    by (vm_compute; reflexivity).
  split; [reflexivity|]. split; [reflexivity|]. split; [exact Hn|].
  destruct (ARC58Extra.addPlugin_then_again_or_remove c1 c2 delegate caller
              100 200 w eq_refl eq_refl) as [_ Hr].
  exact (Hr Hn).
Defined.

Lemma governance_is_admin_only_witness :
  let c := ctx outsider 10 [] in
  let w := mkWorld (arc58_storage ∅ ∅) ledger0 in
  ARC58.admin_only (ARC58.AddPlugin delegate zeroAddress 100) = true
  /\ sender (txn c) <> ARC58.admin (storage w)
  /\ fails_with (ARC58.dispatch c (ARC58.AddPlugin delegate zeroAddress 100))
                w Unauthorized.
Proof.
  intros c w.
  assert (Hs : sender (txn c) <> ARC58.admin (storage w)) by discriminate.
  split; [reflexivity|]. split; [exact Hs|].
  destruct (ARC58Extra.governance_is_admin_only c
              (ARC58.AddPlugin delegate zeroAddress 100) w) as [Hg _].
  exact (proj1 (Hg eq_refl Hs)).
Defined.

Lemma call_footprint_witness :
  let c := ctx caller 50 [rekey_back] in
  let s := arc58_storage {[ wildcard_key := 100 ]} ∅ in
  let w' := mkWorld s {[ account := app_address delegate ]} in
  ARC58.dispatch c (ARC58.RekeyToPlugin delegate) (mkWorld s ledger0)
  = Ok (tt, w')
  /\ storage w' = s.
Proof.
  intros c s w'.
  assert (Hd : ARC58.dispatch c (ARC58.RekeyToPlugin delegate)
                 (mkWorld s ledger0) = Ok (tt, w'))
    by (vm_compute; reflexivity).
  split; [exact Hd|].
  destruct (ARC58Extra.call_footprint c (ARC58.RekeyToPlugin delegate)
              (mkWorld s ledger0) w' Hd) as [Hs _].
  exact (Hs eq_refl).
Defined.

Lemma history_keeps_identities_witness :
  let w := mkWorld (arc58_storage ∅ ∅) ledger0 in
  ARC58.admin (storage w) <> ARC58.controlledAddress (storage w)
  /\ ARC58.controlledAddress (storage (ARC58.run arc58_calls w)) = account
  /\ ARC58.admin (storage (ARC58.run arc58_calls w))
     <> ARC58.controlledAddress (storage (ARC58.run arc58_calls w)).
Proof.
  intros w.
  assert (Hn : ARC58.admin (storage w) <> ARC58.controlledAddress (storage w))
    by discriminate.
  split; [exact Hn|].
  destruct (ARC58Extra.history_keeps_identities arc58_calls w) as [Hc Ha].
  split; [exact Hc | exact (Ha Hn)].
Defined.

Lemma authorization_antitone_in_time_witness :
  let w := mkWorld (arc58_storage {[ wildcard_key := 100 ]} ∅) ledger0 in
  ARC58.arc58_rekeyToPlugin (ctx caller 50 [rekey_back]) delegate w
  <> Fail NotAuthorized
  /\ ARC58.arc58_rekeyToPlugin (ctx caller 20 []) delegate w
     <> Fail NotAuthorized.
Proof.
  intros w.
  assert (H2 : ARC58.arc58_rekeyToPlugin (ctx caller 50 [rekey_back]) delegate w
               <> Fail NotAuthorized) by (vm_compute; discriminate).
  split; [exact H2|].
  apply (ARC58Extra.authorization_antitone_in_time (ctx caller 20 [])
           (ctx caller 50 [rekey_back]) delegate w w eq_refl eq_refl);
    [vm_compute; discriminate | exact H2].
Defined.

Lemma named_delegation_checks_current_sender_witness :
  let w := mkWorld (arc58_storage ∅ ∅) ledger0 in
  let w1 := mkWorld (arc58_storage {[ scoped_key := 100 ]}
                       {[ "swap" := scoped_key ]}) ledger0 in
  ARC58.arc58_addNamedPlugin (ctx owner 10 []) "swap" delegate caller 100 w
  = Ok (tt, w1)
  /\ ARC58.arc58_rekeyToNamedPlugin (ctx outsider 50 [rekey_back]) "swap" w1
     = Fail NotAuthorized
  /\ ARC58.arc58_rekeyToNamedPlugin (ctx caller 50 [rekey_back]) "swap" w1
     = ARC58.handoff (ctx caller 50 [rekey_back]) delegate w1.
Proof.
  intros w w1.
  assert (H1 : ARC58.arc58_addNamedPlugin (ctx owner 10 []) "swap" delegate
                 caller 100 w = Ok (tt, w1)) by (vm_compute; reflexivity).
  split; [exact H1|]. split.
  - destruct (ARC58Extra.named_delegation_checks_current_sender
                (ctx owner 10 []) (ctx outsider 50 [rekey_back]) "swap"
                delegate caller 100 w w1 H1) as (_ & _ & Hno).
    apply Hno; [discriminate | discriminate | not_authorized_here].
  - destruct (ARC58Extra.named_delegation_checks_current_sender
                (ctx owner 10 []) (ctx caller 50 [rekey_back]) "swap"
                delegate caller 100 w w1 H1) as (_ & Hyes & _).
    apply Hyes; [right; reflexivity | reflexivity].
Defined.

Lemma addNamedPlugin_stores_witness :
  let c := ctx owner 10 [] in
  let w := mkWorld (arc58_storage {[ scoped_key := 7 ]} ∅) ledger0 in
  sender (txn c) = ARC58.admin (storage w)
  /\ ARC58.namedPlugins (storage w) !! "swap" = None
  /\ exists w',
       ARC58.arc58_addNamedPlugin c "swap" delegate caller 100 w = Ok (tt, w')
       /\ ARC58.namedPlugins (storage w') !! "swap" = Some scoped_key
       /\ ARC58.plugins (storage w') !! scoped_key = Some 100.
Proof.
  intros c w.
  assert (Hn : ARC58.namedPlugins (storage w) !! "swap" = None)
    by (vm_compute; reflexivity).
  split; [reflexivity|]. split; [exact Hn|].
  destruct (ARC58Extra.addNamedPlugin_stores c "swap" delegate caller 100 w
              eq_refl Hn) as (w' & H1 & H2 & H3 & _).
  exists w'. split; [exact H1|]. split; [exact H2 | exact H3].
Defined.

Lemma named_add_then_remove_witness :
  let w := mkWorld (arc58_storage ∅ ∅) ledger0 in
  let w1 := mkWorld (arc58_storage {[ scoped_key := 100 ]}
                       {[ "swap" := scoped_key ]}) ledger0 in
  ARC58.arc58_addNamedPlugin (ctx owner 10 []) "swap" delegate caller 100 w
  = Ok (tt, w1)
  /\ sender (txn (ctx owner 20 [])) = ARC58.admin (storage w1)
  /\ fails_with (ARC58.arc58_removeNamedPlugin (ctx owner 20 []) "swap") w1
                NotFound
  /\ commit (ARC58.arc58_removeNamedPlugin (ctx owner 20 []) "swap") w1 = w1.
Proof.
  intros w w1.
  assert (H1 : ARC58.arc58_addNamedPlugin (ctx owner 10 []) "swap" delegate
                 caller 100 w = Ok (tt, w1)) by (vm_compute; reflexivity).
  split; [exact H1|]. split; [reflexivity|].
  destruct (ARC58Extra.named_add_then_remove (ctx owner 10 [])
              (ctx owner 20 []) "swap" delegate caller 100 w w1 H1)
    as (_ & Hf & _ & Hu & _).
  split; [exact (Hf eq_refl) | exact Hu].
Defined.

Lemma names_are_permanent_witness :
  let w := mkWorld (arc58_storage {[ wildcard_key := 100 ]}
                      {[ "swap" := wildcard_key ]}) ledger0 in
  let calls := [ (ctx owner 10 [], ARC58.RemoveNamedPlugin "swap");
                 (ctx owner 20 [], ARC58.RemovePlugin delegate zeroAddress);
                 (ctx owner 30 [],
                  ARC58.AddNamedPlugin "swap" delegate caller 200) ] in
  ARC58.namedPlugins (storage w) !! "swap" = Some wildcard_key
  /\ ARC58.namedPlugins (storage (ARC58.run calls w)) !! "swap"
     = Some wildcard_key.
Proof.
  intros w calls.
  assert (Hn : ARC58.namedPlugins (storage w) !! "swap" = Some wildcard_key)
    by (vm_compute; reflexivity).
  split; [exact Hn|].
  exact (proj1 (ARC58Extra.names_are_permanent calls w "swap" wildcard_key
                  Hn)).
Defined.

Lemma changeAdmin_hands_over_witness :
  let c := ctx owner 10 [] in
  let w := mkWorld (arc58_storage ∅ ∅) ledger0 in
  sender (txn c) = ARC58.admin (storage w)
  /\ outsider <> ARC58.controlledAddress (storage w)
  /\ exists w',
       ARC58.arc58_changeAdmin c outsider w = Ok (tt, w')
       /\ fails_with (ARC58.dispatch (ctx owner 20 [])
                        (ARC58.AddPlugin delegate caller 100)) w' Unauthorized.
Proof.
  intros c w.
  assert (Hn : outsider <> ARC58.controlledAddress (storage w))
    by discriminate.
  split; [reflexivity|]. split; [exact Hn|].
  destruct (ARC58Extra.changeAdmin_hands_over c outsider w eq_refl Hn)
    as (w' & H1 & _ & Hgate & _).
  exists w'. split; [exact H1|].
  apply Hgate; [reflexivity | discriminate].
Defined.

Lemma created_storage_witness :
  ARC58.createApplication (ctx owner 0 []) account owner
  = Ok (arc58_storage ∅ ∅)
  /\ ARC58.arc58_rekeyToPlugin (ctx caller 50 [rekey_back]) delegate
       (mkWorld (arc58_storage ∅ ∅) ledger0) = Fail NotAuthorized.
Proof.
  assert (Hc : ARC58.createApplication (ctx owner 0 []) account owner
               = Ok (arc58_storage ∅ ∅)) by (vm_compute; reflexivity).
  split; [exact Hc|].
  destruct (ARC58Extra.created_storage (ctx owner 0 []) account owner
              (arc58_storage ∅ ∅) Hc) as (_ & _ & _ & Hno & _).
  apply Hno.
Defined.

Lemma legacy_verifier_iff_witness :
  let c := ctx caller 50 [rekey_back] in
  let w := mkWorld (legacy_storage_with ∅ ∅) ledger0 in
  Legacy.group_closes c (storage w)
  /\ Legacy.verifyRekeyToAbstractedAccount c w = Ok (tt, w).
Proof.
  intros c w.
  assert (Hc : Legacy.group_closes c (storage w)) by legacy_closes_by_rekey.
  split; [exact Hc|].
  destruct (LegacyExtra.legacy_verifier_iff c w) as [[_ Hacc] _].
  exact (Hacc Hc).
Defined.

Lemma legacy_rekeyToPlugin_spec_witness :
  let c := ctx caller 50 [rekey_back] in
  let s := legacy_storage_with {[ delegate ]} ∅ in
  let l' : Ledger := {[ account := app_address delegate ]} in
  (delegate ∈ Legacy.plugins s \/ delegate ∈ Legacy.factories s)
  /\ Legacy.group_closes c s
  /\ Legacy.rekeyToPlugin c delegate (mkWorld s ledger0)
     = Ok (tt, mkWorld s l')
  /\ fails_with (Legacy.rekeyToPlugin c factory) (mkWorld s ledger0)
                NotAuthorized.
Proof.
  intros c s l'.
  assert (Hin : delegate ∈ Legacy.plugins s \/ delegate ∈ Legacy.factories s)
    by (left; vm_compute; reflexivity).
  assert (Hc : Legacy.group_closes c s) by legacy_closes_by_rekey.
  split; [exact Hin|]. split; [exact Hc|]. split.
  - destruct (LegacyExtra.legacy_rekeyToPlugin_spec c delegate
                (mkWorld s ledger0)) as (_ & Hok & _).
    destruct (Hok l' Hin) as [Hyes _]; [vm_compute; reflexivity|].
    exact (Hyes Hc).
  - destruct (LegacyExtra.legacy_rekeyToPlugin_spec c factory
                (mkWorld s ledger0)) as (Hno & _).
    apply Hno; vm_compute; discriminate.
Defined.

Lemma legacy_rekeyTo_spec_witness :
  let s := legacy_storage_with ∅ ∅ in
  let c := ctx owner 50 [] in
  let l' : Ledger := {[ account := outsider ]} in
  typeEnum (txn c) = appl
  /\ sender (txn c) = Legacy.admin s
  /\ Legacy.rekeyTo c outsider false (mkWorld s ledger0)
     = Ok (tt, mkWorld s l')
  /\ fails_with (Legacy.rekeyTo (ctx outsider 50 []) outsider false)
                (mkWorld s ledger0) Unauthorized.
Proof.
  intros s c l'.
  split; [reflexivity|]. split; [reflexivity|]. split.
  - destruct (LegacyExtra.legacy_rekeyTo_spec c outsider false
                (mkWorld s ledger0)) as (_ & _ & Hplain).
    apply (Hplain l' eq_refl eq_refl). vm_compute. reflexivity.
  - destruct (LegacyExtra.legacy_rekeyTo_spec (ctx outsider 50 []) outsider
                false (mkWorld s ledger0)) as (Hno & _).
    apply Hno. discriminate.
Defined.


Lemma legacy_addFactoryPlugin_spec_witness :
  let c0 := ctx owner 5 [] in
  let c := ctx (1000 + factory) 10 [] in
  let w0 := mkWorld (legacy_storage_with ∅ ∅) ledger0 in
  let w := mkWorld (legacy_storage_with {[ factory ]} ∅) ledger0 in
  Legacy.addPlugin c0 factory w0 = Ok (tt, w)
  /\ @app_creator factory_platform delegate
     = @app_address factory_platform factory
  /\ sender (txn c) = @app_address factory_platform factory
  /\ succeeds (@Legacy.addFactoryPlugin factory_platform c factory delegate) w.
Proof.
  intros c0 c w0 w.
  assert (Ha : Legacy.addPlugin c0 factory w0 = Ok (tt, w))
    by (vm_compute; reflexivity).
  split; [exact Ha|]. split; [reflexivity|]. split; [reflexivity|].
  destruct (@LegacyExtra.legacy_addFactoryPlugin_spec factory_platform c
              factory delegate w) as (_ & _ & _ & Hs).
  exact (Hs c0 w0 Ha eq_refl eq_refl).
Defined.

Lemma legacy_history_witness :
  let s := legacy_storage_with ∅ ∅ in
  let w' := Legacy.run None legacy_calls (mkWorld s ledger0) in
  Legacy.createApplication (ctx owner 0 []) account owner = Ok s
  /\ Legacy.address (storage w') = account
  /\ Legacy.authAddr (storage w') = app_address this_app
  /\ Legacy.admin (storage w') = account.
Proof.
  intros s w'.
  assert (Hc : Legacy.createApplication (ctx owner 0 []) account owner = Ok s)
    by (vm_compute; reflexivity).
  split; [exact Hc|].
  destruct (LegacyExtra.legacy_history None (ctx owner 0 []) account owner s
              legacy_calls ledger0 Hc) as (Ha & Hu & _).
  split; [exact Ha|]. split; [exact Hu|]. vm_compute. reflexivity.
Defined.

End DeploymentExtra.
